(** * peach: table of contents, document lookup and search (models/toc.go)

    A shallow embedding of [models/toc.go] and the properties of its
    front-matter parser, content resolution, [GetDoc], [Search] and
    [ReloadDocs].

    Conventions of the embedding:
    - a Go [string] and a Go [[]byte] are both sequences of bytes, here
      [list ascii]; a [[]byte] that may be [nil] is an [option];
    - a Go [int] is a 64-bit two's complement integer, here a [Z] with the
      wrap-around of [+] written out ([int_add]);
    - a run-time panic (slice bounds, index out of range, nil dereference)
      is the outcome [Panic];
    - the package-level variables ([Tocs], [setting.*]), the objects behind
      [*Toc] pointers and the file system are fields of an explicit state;
    - [GetDoc] calls itself on another tree, so it takes fuel and answers
      [OutOfFuel] when the fuel is spent. *)

From Stdlib Require Import ZArith Ascii String.
From stdpp Require Import base option list gmap strings.

Local Open Scope Z_scope.

(** ** Go run-time values *)

Abbreviation gostring := (list ascii).
Abbreviation bytes := (list ascii).

(** Go string literal. *)
Definition str (s : string) : gostring := list_ascii_of_string s.

Definition byte_of (n : N) : ascii := ascii_of_N n.

Definition len {A} (s : list A) : Z := Z.of_nat (length s).

(** [int]: 64 bits, two's complement. *)
Definition int_bits : Z := 64.
Definition int_max : Z := 2 ^ (int_bits - 1) - 1.
Definition int_min : Z := - 2 ^ (int_bits - 1).
Definition wrap (z : Z) : Z :=
  (z - int_min) mod 2 ^ int_bits + int_min.
Definition int_add (a b : Z) : Z := wrap (a + b).
Definition int_sub (a b : Z) : Z := wrap (a - b).

Inductive outcome (A : Type) : Type :=
  | Ok (a : A)
  | Panic
  | OutOfFuel.
Arguments Ok {A} a.
Arguments Panic {A}.
Arguments OutOfFuel {A}.

#[global] Instance outcome_ret : MRet outcome := fun _ a => Ok a.
#[global] Instance outcome_bind : MBind outcome := fun _ _ f m =>
  match m with
  | Ok a => f a
  | Panic => Panic
  | OutOfFuel => OutOfFuel
  end.

(** [s[lo:hi]]: panics unless [0 <= lo <= hi <= len(s)]. *)
Definition slice {A} (s : list A) (lo hi : Z) : outcome (list A) :=
  if (0 <=? lo) && (lo <=? hi) && (hi <=? len s)
  then Ok (take (Z.to_nat (hi - lo)) (drop (Z.to_nat lo) s))
  else Panic.

(** [s[lo:]]. *)
Definition slice_from {A} (s : list A) (lo : Z) : outcome (list A) :=
  slice s lo (len s).

(** ** The Go [strings] and [bytes] functions the file calls

    [bytes.X] and [strings.X] compute the same function on the underlying
    byte sequence, so each is modelled once. *)

Definition bytes_eqb (a b : list ascii) : bool := bool_decide (a = b).

Fixpoint HasPrefix (s prefix : list ascii) {struct prefix} : bool :=
  match prefix, s with
  | [], _ => true
  | p :: prefix', c :: s' => Ascii.eqb p c && HasPrefix s' prefix'
  | _ :: _, [] => false
  end.

Definition HasSuffix (s suffix : list ascii) : bool :=
  HasPrefix (rev s) (rev suffix).

Definition TrimPrefix (s prefix : list ascii) : list ascii :=
  if HasPrefix s prefix then drop (length prefix) s else s.

(** Offset of the first instance of [sep] in [s]. *)
Fixpoint index_nat (s sep : list ascii) : option nat :=
  if HasPrefix s sep then Some 0%nat
  else match s with
       | [] => None
       | _ :: s' => S <$> index_nat s' sep
       end.

(** [Index]: the offset of the first instance of [sep], or -1. *)
Definition Index (s sep : list ascii) : Z :=
  match index_nat s sep with
  | Some i => Z.of_nat i
  | None => -1
  end.

(** [Count] for a non-empty [sep]: non-overlapping instances. *)
Fixpoint Count_loop (fuel : nat) (s sep : list ascii) : nat :=
  match fuel with
  | O => O
  | S fuel' =>
      match index_nat s sep with
      | None => O
      | Some i => S (Count_loop fuel' (drop (i + length sep) s) sep)
      end
  end.
Definition Count (s sep : list ascii) : Z :=
  Z.of_nat (Count_loop (length s) s sep).

(** The loop of [genSplit]: at most [k] cuts, the rest is the last piece. *)
Fixpoint genSplit_loop (k : nat) (s sep : list ascii) : list (list ascii) :=
  match k with
  | O => [s]
  | S k' =>
      match index_nat s sep with
      | None => [s]
      | Some m => take m s :: genSplit_loop k' (drop (m + length sep) s) sep
      end
  end.

(** [genSplit(s, sep, 0, n)] for a non-empty [sep] (the file only passes
    the one-byte separators newline, colon and slash). *)
Definition genSplit (s sep : list ascii) (n : Z) : list (list ascii) :=
  if n =? 0 then []
  else
    let n := if n <? 0 then Count s sep + 1 else n in
    let n := if n >? len s + 1 then len s + 1 else n in
    genSplit_loop (Z.to_nat (n - 1)) s sep.

Definition Split (s sep : list ascii) : list (list ascii) := genSplit s sep (-1).
Definition SplitN (s sep : list ascii) (n : Z) : list (list ascii) := genSplit s sep n.

(** White space as [unicode.IsSpace] has it, by UTF-8 encoding: the six
    ASCII characters, U+0085, U+00A0, U+1680, U+2000 to U+200A, U+2028,
    U+2029, U+202F, U+205F and U+3000.  A rune decoded at the start (or at
    the end) of a byte sequence is white space exactly when the sequence
    starts (ends) with one of these encodings. *)
Definition white_space : list (list ascii) :=
  map (map byte_of)
    [ [9]; [10]; [11]; [12]; [13]; [32];
      [194; 133]; [194; 160];
      [225; 154; 128];
      [226; 128; 128]; [226; 128; 129]; [226; 128; 130]; [226; 128; 131];
      [226; 128; 132]; [226; 128; 133]; [226; 128; 134]; [226; 128; 135];
      [226; 128; 136]; [226; 128; 137]; [226; 128; 138];
      [226; 128; 168]; [226; 128; 169]; [226; 128; 175];
      [226; 129; 159];
      [227; 128; 128] ]%N.

Definition leading_space (s : list ascii) : option (list ascii) :=
  find (HasPrefix s) white_space.

Fixpoint TrimLeft_loop (fuel : nat) (s : list ascii) : list ascii :=
  match fuel with
  | O => s
  | S fuel' =>
      match leading_space s with
      | Some e => TrimLeft_loop fuel' (drop (length e) s)
      | None => s
      end
  end.

Definition TrimLeftSpace (s : list ascii) : list ascii :=
  TrimLeft_loop (length s) s.

Definition trailing_space (s : list ascii) : option (list ascii) :=
  find (HasSuffix s) white_space.

Fixpoint TrimRight_loop (fuel : nat) (s : list ascii) : list ascii :=
  match fuel with
  | O => s
  | S fuel' =>
      match trailing_space s with
      | Some e => TrimRight_loop fuel' (take (length s - length e) s)
      | None => s
      end
  end.

Definition TrimRightSpace (s : list ascii) : list ascii :=
  TrimRight_loop (length s) s.

(** [TrimSpace]: all leading and trailing white space sliced off. *)
Definition TrimSpace (s : list ascii) : list ascii :=
  TrimRightSpace (TrimLeftSpace s).

(** ** Front matter *)

Definition marker : list ascii := str "---".
Definition newline : list ascii := [byte_of 10].

(** One round of the loop over [opts] in [parseNodeName]. *)
Definition parse_opt (title opt : gostring) : gostring :=
  let infos := SplitN opt (str ":") 2 in
  if negb (len infos =? 2) then title
  else
    if bytes_eqb (TrimSpace (infos !!! 0%nat)) (str "name")
    then TrimSpace (infos !!! 1%nat)
    else title.

Definition parseNodeName (name : gostring) (data : bytes)
  : outcome (gostring * bytes) :=
  let data := TrimSpace data in
  if (len data <? 3) || negb (bytes_eqb (take 3 data) marker)
  then Ok (name, [])
  else
    let endIdx := int_add (Index (drop 3 data) marker) 3 in
    if endIdx =? -1 then Ok (name, [])
    else
      block ← slice data 3 endIdx;
      let opts := Split (TrimSpace block) newline in
      let title := fold_left parse_opt opts name in
      body ← slice_from data (int_add endIdx 3);
      Ok (title, body).

(** ** Nodes, trees and the process state *)

#[warnings="-register-all"]
Inductive Node : Type := mkNode {
  Name : gostring;          (* Name in TOC *)
  Title : gostring;         (* Name in given language *)
  content : option bytes;   (* nil until rendered *)
  Text : gostring;          (* Clean text without formatting *)
  Plain : bool;             (* Root node without content *)
  FileName : gostring;      (* Full path with .md extension *)
  Nodes : list Node
}.

(** Toc represents table of content in a specific language. *)
Record Toc : Type := mkToc {
  RootPath : gostring;
  Lang : gostring;
  Toc_Nodes : list Node;
  Pages : list Node
}.

(** What the file system answers: [ioutil.ReadFile] ([None] is a read
    error), [com.IsFile] and [com.IsDir]. *)
Record World : Type := mkWorld {
  ReadFile : gostring → option bytes;
  IsFile : gostring → bool;
  IsDir : gostring → bool
}.

(** The package-level state: [setting.ProdMode], [setting.Docs.*], the
    [Toc] objects that pointers refer to ([heap], an address is an index)
    and the registry [Tocs] from language to pointer.  A missing key of
    [Tocs] reads as the nil pointer. *)
Record State : Type := mkState {
  world : World;
  ProdMode : bool;
  Langs : list gostring;
  DocsType : gostring;
  DocsTarget : gostring;
  heap : list Toc;
  Tocs : gmap gostring nat
}.

Inductive error : Type :=
  | ErrRead
  | ErrAbs
  | ErrPull
  | ErrClone
  | ErrDocsNotFound
  | ErrTocNotFound
  | ErrLoadToc
  | ErrInitToc (e : error).

(** A loaded TOC.ini: sections in order, each with its keys in order. *)
Abbreviation IniFile := (list (gostring * list (gostring * gostring))).

Record SearchResult : Type := mkSearchResult {
  res_Title : gostring;
  res_Path : gostring;
  res_Match : gostring
}.

(** The collaborators the file calls and does not define: the Markdown
    renderers, Unicode lower-casing, [path.Join], [filepath.Abs], the git
    commands, the ini parser and [initDocs].  [title_read_first] is the
    order, which Go leaves open, in which [return n.Title, n.Content(), _]
    reads the field and makes the call. *)
Class Externals : Type := {
  markdown : bytes → option bytes;
  renderText : bytes → bytes;
  bytes_ToLower : bytes → bytes;
  strings_ToLower : gostring → gostring;
  path_Join : list gostring → gostring;
  title_read_first : bool;
  filepath_Abs : gostring → option gostring;
  git_pull : World → gostring → bool * World;
  git_clone : World → gostring → gostring → bool * World;
  ini_Load : World → gostring → option IniFile;
  initDocs : State → gmap gostring Toc → gostring → outcome (gmap gostring Toc)
}.

Definition set_world (st : State) (w : World) : State :=
  mkState w (ProdMode st) (Langs st) (DocsType st) (DocsTarget st)
          (heap st) (Tocs st).

Definition set_heap (st : State) (h : list Toc) : State :=
  mkState (world st) (ProdMode st) (Langs st) (DocsType st) (DocsTarget st)
          h (Tocs st).

Definition set_Toc_Nodes (t : Toc) (ns : list Node) : Toc :=
  mkToc (RootPath t) (Lang t) ns (Pages t).

Definition set_Nodes (n : Node) (ns : list Node) : Node :=
  mkNode (Name n) (Title n) (content n) (Text n) (Plain n) (FileName n) ns.

(** The object behind [t.Nodes[i]] after it became [n]. *)
Definition store_dir (st : State) (a i : nat) (n : Node) : State :=
  match heap st !! a with
  | Some t => set_heap st (<[a := set_Toc_Nodes t (<[i := n]> (Toc_Nodes t))]> (heap st))
  | None => st
  end.

(** The object behind [t.Nodes[i].Nodes[j]] after it became [n]. *)
Definition store_file (st : State) (a i j : nat) (n : Node) : State :=
  match heap st !! a ≫= λ t, Toc_Nodes t !! i with
  | Some d => store_dir st a i (set_Nodes d (<[j := n]> (Nodes d)))
  | None => st
  end.

(** [cfg.Section(name)], empty when the file has no such section. *)
Definition ini_Section (cfg : IniFile) (name : gostring)
  : list (gostring * gostring) :=
  default [] (snd <$> find (λ s, bool_decide (s.1 = name)) cfg).

Definition KeyStrings (sec : list (gostring * gostring)) : list gostring :=
  sec.*1.

(** [sec.Key(k).String()]. *)
Definition Key_String (sec : list (gostring * gostring)) (k : gostring)
  : gostring :=
  default [] (snd <$> find (λ kv, bool_decide (kv.1 = k)) sec).

(** [&Node{Name: name, FileName: fileName}]. *)
Definition new_Node (name fileName : gostring) (children : list Node) : Node :=
  mkNode name [] None [] false fileName children.

(** [Tocs = tocs]: the new trees become objects of the heap and the
    registry points at them. *)
Definition install (st : State) (tocs : gmap gostring Toc) : State :=
  let l := map_to_list tocs in
  mkState (world st) (ProdMode st) (Langs st) (DocsType st) (DocsTarget st)
          (heap st ++ l.*2)
          (list_to_map (zip (l.*1) (seq (length (heap st)) (length l)))).

Section Models.
Context `{Externals}.

(** ** Content resolution *)

Definition ReloadContent (w : World) (n : Node) : outcome (option error * Node) :=
  match ReadFile w (FileName n) with
  | None => Ok (Some ErrRead, n)
  | Some data =>
      '(title, data) ← parseNodeName (Name n) data;
      let plain := len (TrimSpace data) =? 0 in
      if negb plain
      then Ok (None, mkNode (Name n) title (markdown data)
                            (bytes_ToLower (renderText data))
                            plain (FileName n) (Nodes n))
      else Ok (None, mkNode (Name n) title (content n) (Text n)
                            plain (FileName n) (Nodes n))
  end.

(** [Content]: the bytes returned and the node as the call leaves it. *)
Definition Content (st : State) (n : Node) : outcome (option bytes * Node) :=
  if negb (ProdMode st)
  then '(_, n') ← ReloadContent (world st) n; Ok (content n', n')
  else Ok (content n, n).

(** ** GetDoc *)

(** [return n.Title, n.Content(), _]. *)
Definition title_and_content (st : State) (n : Node)
  : outcome (gostring * option bytes * Node) :=
  '(c, n') ← Content st n;
  Ok (if title_read_first then Title n else Title n', c, n').

(** The two loops of the file-node case: the first directory named [dir]
    that has a child named [file], with both indices. *)
Fixpoint find_file (nodes : list Node) (dir file : gostring) (i : nat)
  : option (nat * nat * Node) :=
  match nodes with
  | [] => None
  | n :: rest =>
      if decide (Name n = dir)
      then match list_find (λ c, Name c = file) (Nodes n) with
           | Some (j, c) => Some (i, j, c)
           | None => find_file rest dir file (S i)
           end
      else find_file rest dir file (S i)
  end.

Definition doc := (gostring * option bytes * bool)%type.
Definition not_found : doc := ([], None, false).

Fixpoint GetDoc (fuel : nat) (st : State) (t : option nat) (name : gostring)
  : outcome (doc * State) :=
  match fuel with
  | O => OutOfFuel
  | S fuel' =>
    let name := TrimPrefix name (str "/") in
    match t ≫= λ a, pair a <$> heap st !! a with
    | None => Panic
    | Some (a, toc) =>
      if len name =? 0 then
        match Toc_Nodes toc with
        | [] => Ok (not_found, st)
        | n0 :: _ =>
            if Plain n0 then Ok (not_found, st)
            else '(title, c, n') ← title_and_content st n0;
                 Ok ((title, c, false), store_dir st a 0 n')
        end
      else
        let infos := Split name (str "/") in
        if len infos =? 1 then
          match list_find (λ n, Name n = infos !!! 0%nat) (Toc_Nodes toc) with
          | Some (i, n) =>
              '(title, c, n') ← title_and_content st n;
              Ok ((title, c, false), store_dir st a i n')
          | None => Ok (not_found, st)
          end
        else
          match find_file (Toc_Nodes toc) (infos !!! 0%nat) (infos !!! 1%nat) 0 with
          | Some (i, j, n) =>
              if IsFile (world st) (FileName n) then
                '(title, c, n') ← title_and_content st n;
                Ok ((title, c, false), store_file st a i j n')
              else
                match Langs st with
                | [] => Panic
                | lang0 :: _ =>
                    '(d, st') ← GetDoc fuel' st (Tocs st !! lang0) name;
                    Ok ((d.1.1, d.1.2, true), st')
                end
          | None => Ok (not_found, st)
          end
    end
  end.

(** ** Search *)

Definition adjustRange (start end_ length : Z) : Z * Z :=
  let start := int_sub start 20 in
  let start := if start <? 0 then 0 else start in
  let end_ := int_add end_ 230 in
  let end_ := if end_ >? length then length else end_ in
  (start, end_).

(** The body both loops of [Search] run for one node. *)
Definition search_node (q title path text : gostring)
    (results : list SearchResult) : outcome (list SearchResult) :=
  let idx := Index text q in
  if idx >? -1 then
    let '(start, end_) := adjustRange idx (int_add idx (len q)) (len text) in
    m ← slice text start end_;
    Ok (results ++ [mkSearchResult title path m])
  else Ok results.

Fixpoint search_dirs (q : gostring) (nodes : list Node)
    (results : list SearchResult) : outcome (list SearchResult) :=
  match nodes with
  | [] => Ok results
  | n :: rest =>
      results ← search_node q (Title n) (Name n) (Text n) results;
      search_dirs q rest results
  end.

Fixpoint search_children (q dir : gostring) (children : list Node)
    (results : list SearchResult) : outcome (list SearchResult) :=
  match children with
  | [] => Ok results
  | c :: rest =>
      results ← search_node q (Title c) (path_Join [dir; Name c]) (Text c) results;
      search_children q dir rest results
  end.

Fixpoint search_files (q : gostring) (nodes : list Node)
    (results : list SearchResult) : outcome (list SearchResult) :=
  match nodes with
  | [] => Ok results
  | n :: rest =>
      results ← search_children q (Name n) (Nodes n) results;
      search_files q rest results
  end.

Definition Search (t : Toc) (q : gostring) : outcome (list SearchResult) :=
  if len q =? 0 then Ok []
  else
    let q := strings_ToLower q in
    results ← search_dirs q (Toc_Nodes t) [];
    search_files q (Toc_Nodes t) results.

(** ** Loading *)

(** The body of the loop over [setting.Docs.Langs] in [initToc]. *)
Definition build_Toc (cfg : IniFile) (localRoot lang : gostring) : Toc :=
  let dirs := KeyStrings (ini_Section cfg []) in
  let nodes :=
    omap (λ dir,
      let dirName := Key_String (ini_Section cfg []) dir in
      let files := KeyStrings (ini_Section cfg dirName) in
      match files with
      | [] => None (* Skip empty directory. *)
      | file0 :: files' =>
          Some (new_Node dirName
            (path_Join [localRoot; lang; dirName;
                        Key_String (ini_Section cfg dirName) file0] ++ str ".md")
            (map (λ file,
               let fileName := Key_String (ini_Section cfg dirName) file in
               new_Node fileName
                 (path_Join [localRoot; lang; dirName; fileName] ++ str ".md") [])
               files'))
      end) dirs in
  let pages :=
    map (λ page,
      let pageName := Key_String (ini_Section cfg (str "pages")) page in
      new_Node pageName (path_Join [localRoot; lang; pageName] ++ str ".md") [])
      (KeyStrings (ini_Section cfg (str "pages"))) in
  mkToc localRoot lang nodes pages.

Definition initToc (st : State) (localRoot : gostring)
  : error + gmap gostring Toc :=
  let tocPath := path_Join [localRoot; str "TOC.ini"] in
  if negb (IsFile (world st) tocPath) then inl ErrTocNotFound
  else
    match ini_Load (world st) tocPath with
    | None => inl ErrLoadToc
    | Some tocCfg =>
        inr (fold_left
               (λ tocs lang, <[lang := build_Toc tocCfg localRoot lang]> tocs)
               (Langs st) ∅)
    end.

(** [ReloadDocs] up to the call of [initToc]: fetch or update a remote
    source, then require the local root to be a directory. *)
Definition ensure_source (st : State) : State * (error + gostring) :=
  let check (st : State) (localRoot : gostring) :=
    if negb (IsDir (world st) localRoot) then (st, inl ErrDocsNotFound)
    else (st, inr localRoot) in
  if bytes_eqb (DocsType st) (str "remote") then
    let localRoot := str "data/docs" in
    match filepath_Abs localRoot with
    | None => (st, inl ErrAbs)
    | Some absRoot =>
        if IsDir (world st) absRoot then
          let '(ok, w) := git_pull (world st) absRoot in
          if ok then check (set_world st w) localRoot
          else (set_world st w, inl ErrPull)
        else
          let '(ok, w) := git_clone (world st) (DocsTarget st) absRoot in
          if ok then check (set_world st w) localRoot
          else (set_world st w, inl ErrClone)
    end
  else check st (DocsTarget st).

Definition ReloadDocs (st : State) : outcome (option error * State) :=
  let '(st, r) := ensure_source st in
  match r with
  | inl e => Ok (Some e, st)
  | inr localRoot =>
      match initToc st localRoot with
      | inl e => Ok (Some (ErrInitToc e), st)
      | inr tocs =>
          tocs ← initDocs st tocs localRoot;
          Ok (None, install st tocs)
      end
  end.

End Models.

(** ** The front matter in the words of the specification *)

(** How a document is laid out: no opening marker, an opening marker that
    is never closed, or a block between two markers followed by the body. *)
Inductive layout : Type :=
  | NoFrontMatter
  | Unclosed
  | FrontMatter (block body : bytes).

Definition layout_of (data : bytes) : layout :=
  let d := TrimSpace data in
  if HasPrefix d marker then
    match index_nat (drop 3 d) marker with
    | Some m => FrontMatter (take m (drop 3 d)) (drop (m + 3) (drop 3 d))
    | None => Unclosed
    end
  else NoFrontMatter.

(** The value of a line [key: value] whose trimmed key is [name]; the
    line is cut at its first colon. *)
Definition name_value (line : gostring) : option gostring :=
  i ← index_nat line (str ":");
  if bool_decide (TrimSpace (take i line) = str "name")
  then Some (TrimSpace (drop (S i) line))
  else None.

(** The trimmed value of the last [name] line of the block. *)
Definition front_matter_name (block : bytes) : option gostring :=
  last (omap name_value (Split (TrimSpace block) newline)).

(** ** Paths in the words of the specification *)

(** A path segment: a name without a slash. *)
Definition is_segment (s : gostring) : bool :=
  forallb (λ c, negb (Ascii.eqb c "/")) s.

(** The slash-separated path made of the given segments. *)
Definition join_path (segs : list gostring) : gostring :=
  match segs with
  | [] => []
  | s :: rest => s ++ mjoin (map (λ y, "/"%char :: y) rest)
  end.
Arguments join_path : simpl never.

(** ** Search in the words of the specification *)

(** [q] occurs in [text] at offset [i]. *)
Definition occurs_at (text q : gostring) (i : nat) : Prop :=
  ∃ before after, text = before ++ q ++ after ∧ length before = i.

Definition first_occurrence (text q : gostring) (i : nat) : Prop :=
  occurs_at text q i ∧ ∀ j, (j < i)%nat → ¬ occurs_at text q j.

(** The slice [[max(0, i-20), min(N, i+L+230)]] of a text of length [N]. *)
Definition window (text : gostring) (i L : Z) : gostring :=
  let lo := Z.max 0 (i - 20) in
  let hi := Z.min (len text) (i + L + 230) in
  take (Z.to_nat (hi - lo)) (drop (Z.to_nat lo) text).

(** The texts of the nodes in the order the two passes visit them. *)
Definition texts (t : Toc) : list gostring :=
  (Text <$> Toc_Nodes t) ++ (Toc_Nodes t ≫= λ d, Text <$> Nodes d).

(** No text is so long that adding the margin of 230 leaves [int]. *)
Definition within_int (t : Toc) : Prop :=
  Forall (λ text, len text + 230 ≤ int_max) (texts t).

(** The result a node contributes, if its text contains [q]. *)
Definition result_of (q title path text : gostring) : option SearchResult :=
  (λ i, mkSearchResult title path (window text (Z.of_nat i) (len q)))
    <$> index_nat text q.

(** Pass 1: the directory nodes, the path is the directory name. *)
Definition dir_results (q : gostring) (t : Toc) : list SearchResult :=
  omap (λ n, result_of q (Title n) (Name n) (Text n)) (Toc_Nodes t).

(** Pass 2: the file nodes, the path joins directory and file name. *)
Definition file_results `{Externals} (q : gostring) (t : Toc)
  : list SearchResult :=
  Toc_Nodes t ≫= λ d,
    omap (λ c, result_of q (Title c) (path_Join [Name d; Name c]) (Text c))
         (Nodes d).

(** Two states with the same disk, settings and registry, and as many
    objects in the heap. *)
Definition same_registry (st st' : State) : Prop :=
  world st' = world st ∧ ProdMode st' = ProdMode st ∧ Langs st' = Langs st
  ∧ DocsType st' = DocsType st ∧ DocsTarget st' = DocsTarget st
  ∧ Tocs st' = Tocs st ∧ length (heap st') = length (heap st).

(** A node as [initToc] makes it: no title, nothing rendered. *)
Definition unresolved (n : Node) : Prop :=
  Title n = [] ∧ content n = None ∧ Text n = [] ∧ Plain n = false.




(** The tree the registry holds for a language. *)
Definition lookup_Toc (st : State) (lang : gostring) : option Toc :=
  Tocs st !! lang ≫= λ a, heap st !! a.

(** ** Test doubles and sample data *)

(** Deterministic stand-ins for the collaborators. *)
Definition stub : Externals := {|
  markdown := λ d, Some (str "<p>" ++ d);
  renderText := λ d, d;
  bytes_ToLower := λ d, d;
  strings_ToLower := λ s, s;
  path_Join := join_path;
  title_read_first := false;
  filepath_Abs := λ p, Some (str "/srv/" ++ p);
  git_pull := λ w _, (true, w);
  git_clone := λ w _ _, (true, w);
  ini_Load := λ _ _, None;
  initDocs := λ _ tocs _, Ok tocs
|}.

(** A text made of the given lines. *)
Definition unlines (l : list string) : bytes :=
  match l with
  | [] => []
  | x :: l' => str x ++ mjoin (map (λ y, newline ++ str y) l')
  end.

(** A disk that holds the given files and nothing else. *)
Definition disk (files : list (gostring * bytes)) : World :=
  mkWorld (λ p, snd <$> find (λ f, bool_decide (f.1 = p)) files)
          (λ p, bool_decide (p ∈ files.*1))
          (λ _, false).

Definition mk_state (w : World) (prod : bool) (langs : list gostring)
    (h : list Toc) (tocs : list (gostring * nat)) : State :=
  mkState w prod langs (str "local") (str "docs") h (list_to_map tocs).

(** A front matter that is opened and never closed. *)
Definition doc_unclosed : bytes := unlines ["---"; "name: Intro"; "body"].
(** A [name] key with nothing after the colon. *)
Definition doc_blank_name : bytes := unlines ["---"; "name:"; "---"; "body"].
Definition doc_hello : bytes := unlines ["---"; "name: Intro"; "---"; "hello"].
Definition doc_emptied : bytes := unlines ["---"; "name: Intro"; "---"].

Definition node_intro : Node := new_Node (str "intro") (str "docs/en/intro.md") [].
(** A tree of language [lang] whose two nodes have been resolved. *)
Definition toc_loaded (lang : string) : Toc :=
  mkToc (str "docs") (str lang)
    [mkNode (str "guide") (str "Guide") (Some (str "<p>guide")) (str "guide")
       false (str "docs/" ++ str lang ++ str "/guide/intro.md")
       [mkNode (str "setup") (str "Setup " ++ str lang)
          (Some (str "<p>setup")) (str "setup") false
          (str "docs/" ++ str lang ++ str "/guide/setup.md") []]]
    [].

(** Production mode, two languages; [guide/setup] is on the disk for
    [en] only. *)
Definition st_served : State :=
  mk_state (disk [(str "docs/en/guide/intro.md", doc_hello);
                  (str "docs/en/guide/setup.md", doc_hello);
                  (str "docs/zh/guide/intro.md", doc_hello)]) true
    [str "en"; str "zh"] [toc_loaded "en"; toc_loaded "zh"]
    [(str "en", 0%nat); (str "zh", 1%nat)].

(** As [st_served], with a default language the registry has no tree
    for. *)
Definition st_no_default : State :=
  mk_state (disk [(str "docs/zh/guide/intro.md", doc_hello)]) true
    [str "fr"; str "zh"] [toc_loaded "en"; toc_loaded "zh"]
    [(str "en", 0%nat); (str "zh", 1%nat)].

(** A document without any front matter. *)
Definition doc_bare : bytes := unlines ["# Title"; "some text"].

(** A tree of language [lang] with one directory [guide] and one child
    [setup]. *)
Definition toc_guide (lang : string) : Toc :=
  mkToc (str "docs") (str lang)
    [new_Node (str "guide") (str "docs/" ++ str lang ++ str "/guide/intro.md")
       [new_Node (str "setup")
          (str "docs/" ++ str lang ++ str "/guide/setup.md") []]]
    [].

(** One language, and the file of [guide/setup] is not on the disk. *)
Definition st_default_missing : State :=
  mk_state (disk [(str "docs/en/guide/intro.md", doc_hello)]) true
    [str "en"] [toc_guide "en"] [(str "en", 0%nat)].


(** A tree whose directory and child both mention [peach]. *)
Definition toc_texts : Toc :=
  mkToc (str "docs") (str "en")
    [mkNode (str "guide") (str "Guide") None (str "about peach") false
       (str "docs/en/guide/intro.md")
       [mkNode (str "setup") (str "Setup") None (str "install peach first")
          false (str "docs/en/guide/setup.md") []]]
    [].

(** Two languages in development mode; [guide/setup] is translated in
    [en] only. *)
Definition st_untranslated : State :=
  mk_state (disk [(str "docs/en/guide/intro.md", doc_hello);
                  (str "docs/en/guide/setup.md", doc_hello);
                  (str "docs/zh/guide/intro.md", doc_hello)]) false
    [str "en"; str "zh"] [toc_guide "en"; toc_guide "zh"]
    [(str "en", 0%nat); (str "zh", 1%nat)].

(** An index with one directory [guide] of two files, an empty directory
    [misc] and one page. *)
Definition ini_guide : IniFile :=
  [([], [(str "1", str "guide"); (str "2", str "misc")]);
   (str "guide", [(str "a", str "intro"); (str "b", str "setup")]);
   (str "pages", [(str "p", str "faq")])].

(** Collaborators whose ini parser answers [ini_guide]. *)
Definition stub_ini : Externals := {|
  markdown := @markdown stub;
  renderText := @renderText stub;
  bytes_ToLower := @bytes_ToLower stub;
  strings_ToLower := @strings_ToLower stub;
  path_Join := join_path;
  title_read_first := false;
  filepath_Abs := @filepath_Abs stub;
  git_pull := @git_pull stub;
  git_clone := @git_clone stub;
  ini_Load := λ _ _, Some ini_guide;
  initDocs := λ _ tocs _, Ok tocs
|}.

(** A local source with its TOC.ini in place and nothing loaded yet. *)
Definition st_fresh : State :=
  mkState (mkWorld (λ _, None)
                   (λ p, bool_decide (p = str "docs/TOC.ini"))
                   (λ p, bool_decide (p = str "docs")))
          true [str "en"] (str "local") (str "docs") [] ∅.

(** A remote source whose cache directory cannot be resolved. *)
Definition stub_no_abs : Externals := {|
  markdown := @markdown stub;
  renderText := @renderText stub;
  bytes_ToLower := @bytes_ToLower stub;
  strings_ToLower := @strings_ToLower stub;
  path_Join := join_path;
  title_read_first := false;
  filepath_Abs := λ _, None;
  git_pull := @git_pull stub;
  git_clone := @git_clone stub;
  ini_Load := λ _ _, None;
  initDocs := λ _ tocs _, Ok tocs
|}.

Definition st_remote : State :=
  mkState (mkWorld (λ _, None) (λ _, false) (λ _, false))
          true [str "en"] (str "remote") (str "https://example.org/docs.git")
          [toc_guide "en"] (list_to_map [(str "en", 0%nat)]).





(** * Properties *)

(** ** Integers and slices *)

Lemma bind_Ok {A B} (f : A → outcome B) (a : A) : Ok a ≫= f = f a.
Proof. done. Qed.

Lemma int_consts :
  int_min = -9223372036854775808 ∧ int_max = 9223372036854775807
  ∧ 2 ^ int_bits = 18446744073709551616.
Proof. repeat split; reflexivity. Qed.

Lemma wrap_id z : int_min ≤ z ≤ int_max → wrap z = z.
Proof.
  unfold wrap. destruct int_consts as (Hmin & Hmax & Hpow).
  rewrite Hmin, Hmax, Hpow. intros Hz.
  rewrite Z.mod_small by lia. lia.
Qed.

Lemma slice_ok {A} (s : list A) (lo hi : nat) :
  (lo ≤ hi ≤ length s)%nat →
  slice s (Z.of_nat lo) (Z.of_nat hi) = Ok (take (hi - lo) (drop lo s)).
Proof.
  intros Hr. unfold slice, len.
  assert ((0 <=? Z.of_nat lo) && (Z.of_nat lo <=? Z.of_nat hi)
          && (Z.of_nat hi <=? Z.of_nat (length s)) = true) as ->.
  { rewrite !andb_true_iff, !Z.leb_le. lia. }
  rewrite Nat2Z.id.
  by replace (Z.to_nat (Z.of_nat hi - Z.of_nat lo)) with (hi - lo)%nat by lia.
Qed.

Lemma slice_from_ok {A} (s : list A) (lo : nat) :
  (lo ≤ length s)%nat → slice_from s (Z.of_nat lo) = Ok (drop lo s).
Proof.
  intros Hr. unfold slice_from, len. rewrite slice_ok by lia.
  f_equal. apply take_ge. rewrite length_drop. lia.
Qed.

(** ** Strings *)

Lemma HasPrefix_true s p : HasPrefix s p = true → s = p ++ drop (length p) s.
Proof.
  revert s. induction p as [|c p IH]; intros [|x s]; simpl; try done.
  rewrite andb_true_iff, Ascii.eqb_eq. intros [-> Hp]. f_equal. by apply IH.
Qed.

Lemma HasPrefix_app p s : HasPrefix (p ++ s) p = true.
Proof.
  induction p as [|c p IH]; simpl; [done|].
  by rewrite Ascii.eqb_refl, IH.
Qed.

Lemma HasPrefix_length s p : HasPrefix s p = true → (length p ≤ length s)%nat.
Proof.
  intros Hp. rewrite (HasPrefix_true _ _ Hp), length_app. lia.
Qed.

Lemma HasPrefix_marker d :
  HasPrefix d marker = negb ((len d <? 3) || negb (bytes_eqb (take 3 d) marker)).
Proof.
  unfold bytes_eqb, len.
  destruct (HasPrefix d marker) eqn:Hp.
  - pose proof (HasPrefix_length _ _ Hp) as Hl. rewrite (HasPrefix_true _ _ Hp).
    change (length marker) with 3%nat in *.
    rewrite take_app_length' by done.
    rewrite bool_decide_eq_true_2 by done.
    rewrite length_app, length_drop. change (length marker) with 3%nat.
    symmetry. rewrite negb_true_iff, orb_false_iff, Z.ltb_ge. split; [lia|done].
  - symmetry. rewrite negb_false_iff, orb_true_iff. 
    destruct (decide (take 3 d = marker)) as [Heq|Hne].
    + rewrite <- (take_drop 3 d), Heq, HasPrefix_app in Hp. done.
    + right. by rewrite bool_decide_eq_false_2.
Qed.

Lemma index_nat_bound s sep i :
  index_nat s sep = Some i → (i + length sep ≤ length s)%nat.
Proof.
  revert i. induction s as [|c s IH]; intros i; simpl.
  - destruct (HasPrefix [] sep) eqn:Hp; [|done].
    intros [= <-]. apply HasPrefix_length in Hp. simpl in *. lia.
  - destruct (HasPrefix (c :: s) sep) eqn:Hp.
    + intros [= <-]. apply HasPrefix_length in Hp. simpl in *. lia.
    + destruct (index_nat s sep) as [j|]; [|done].
      intros [= <-]. specialize (IH j eq_refl). lia.
Qed.

Lemma TrimLeft_loop_length fuel s : (length (TrimLeft_loop fuel s) ≤ length s)%nat.
Proof.
  revert s. induction fuel as [|fuel IH]; intros s; simpl; [done|].
  destruct (leading_space s); [|done].
  etrans; [apply IH|]. rewrite length_drop. lia.
Qed.

Lemma TrimRight_loop_length fuel s : (length (TrimRight_loop fuel s) ≤ length s)%nat.
Proof.
  revert s. induction fuel as [|fuel IH]; intros s; simpl; [done|].
  destruct (trailing_space s); [|done].
  etrans; [apply IH|]. rewrite length_take. lia.
Qed.

Lemma TrimSpace_length s : (length (TrimSpace s) ≤ length s)%nat.
Proof.
  unfold TrimSpace, TrimRightSpace, TrimLeftSpace.
  etrans; [apply TrimRight_loop_length|apply TrimLeft_loop_length].
Qed.

Lemma SplitN_colon opt :
  SplitN opt (str ":") 2 =
  match index_nat opt (str ":") with
  | Some i => [take i opt; drop (i + 1) opt]
  | None => [opt]
  end.
Proof.
  unfold SplitN, genSplit.
  change (2 =? 0) with false. change (2 <? 0) with false. cbv iota.
  destruct opt as [|c opt]; [done|].
  assert ((2 >? len (c :: opt) + 1) = false) as ->.
  { unfold len. simpl length. rewrite Z.gtb_ltb, Z.ltb_ge. lia. }
  change (Z.to_nat (2 - 1)) with 1%nat. simpl genSplit_loop.
  destruct (HasPrefix (c :: opt) (str ":")); [done|].
  by destruct (index_nat opt (str ":")).
Qed.

(** ** The front-matter parser *)

Lemma parse_opt_name_value title opt :
  parse_opt title opt = default title (name_value opt).
Proof.
  unfold parse_opt, name_value. rewrite SplitN_colon.
  destruct (index_nat opt (str ":")) as [i|]; simpl; [|done].
  unfold bytes_eqb. replace (i + 1)%nat with (S i) by lia.
  by case_bool_decide.
Qed.

Lemma fold_parse_opt opts name :
  fold_left parse_opt opts name = default name (last (omap name_value opts)).
Proof.
  revert name. induction opts as [|opt opts IH]; intros name; [done|].
  cbn [fold_left]. rewrite IH, parse_opt_name_value.
  change (omap name_value (opt :: opts))
    with (match name_value opt with
          | Some y => y :: omap name_value opts
          | None => omap name_value opts
          end).
  destruct (name_value opt) as [v|]; simpl; [|done].
  rewrite last_cons. by destruct (last (omap name_value opts)).
Qed.

(** Without an opening marker: the declared name and an empty body. *)
Lemma parseNodeName_no_front_matter name data :
  layout_of data = NoFrontMatter → parseNodeName name data = Ok (name, []).
Proof.
  unfold layout_of, parseNodeName. rewrite HasPrefix_marker.
  destruct (_ || _); simpl; [done|]. by destruct (index_nat _ _).
Qed.

(** An opening marker and no closing one: the slice [data[3:2]] panics. *)
Lemma parseNodeName_unclosed name data :
  layout_of data = Unclosed → parseNodeName name data = Panic.
Proof.
  unfold layout_of, parseNodeName, Index. rewrite HasPrefix_marker.
  destruct (_ || _); simpl; [done|].
  by destruct (index_nat _ _).
Qed.

(** Both markers present: the title comes from the block, the body is
    what follows the closing marker. *)
Lemma parseNodeName_front_matter name data block body :
  len data ≤ int_max →
  layout_of data = FrontMatter block body →
  parseNodeName name data =
    Ok (default name (front_matter_name block), body).
Proof.
  intros Hlen. unfold layout_of, parseNodeName, Index, front_matter_name.
  rewrite HasPrefix_marker.
  destruct (_ || _) eqn:Hopen; simpl; [done|].
  destruct (index_nat _ _) as [m|] eqn:Hm; [|done]. intros [= <- <-].
  pose proof (index_nat_bound _ _ _ Hm) as Hb.
  rewrite length_drop in Hb. change (length marker) with 3%nat in Hb.
  pose proof (TrimSpace_length data) as Ht. unfold len in Hlen.
  destruct int_consts as (Hmin & Hmax & _).
  unfold int_add. rewrite (wrap_id (Z.of_nat m + 3)) by lia.
  rewrite (wrap_id (Z.of_nat m + 3 + 3)) by lia.
  assert ((Z.of_nat m + 3 =? -1) = false) as -> by (apply Z.eqb_neq; lia).
  replace (slice (TrimSpace data) 3 (Z.of_nat m + 3))
    with (slice (TrimSpace data) (Z.of_nat 3) (Z.of_nat (m + 3)))
    by (f_equal; lia).
  rewrite slice_ok by lia. simpl.
  replace (Z.of_nat m + 3 + 3) with (Z.of_nat (m + 6)) by lia.
  rewrite slice_from_ok by lia. simpl.
  rewrite fold_parse_opt. replace (m + 3 - 3)%nat with m by lia.
  do 2 f_equal. rewrite drop_drop. f_equal. lia.
Qed.

(** ** Content resolution *)

Section ContentResolution.
Context `{Externals}.

Lemma ReloadContent_parsed w n data title body :
  ReadFile w (FileName n) = Some data →
  parseNodeName (Name n) data = Ok (title, body) →
  ∃ n', ReloadContent w n = Ok (None, n') ∧ Title n' = title
        ∧ Name n' = Name n ∧ Plain n' = (len (TrimSpace body) =? 0).
Proof.
  intros Hread Hparse. unfold ReloadContent. rewrite Hread, Hparse. simpl.
  destruct (len (TrimSpace body) =? 0); simpl; eauto.
Qed.

(** C1, at a document that opens a front matter and never closes it: the
    parser does not return the declared name and an empty body, it panics
    on the slice [data[3:2]], and so does the content resolution that
    calls it. *)
Theorem unclosed_front_matter_panics :
  layout_of doc_unclosed = Unclosed
  ∧ parseNodeName (Name node_intro) doc_unclosed = Panic
  ∧ ReloadContent (disk [(FileName node_intro, doc_unclosed)]) node_intro
    = Panic.
Proof. repeat split; vm_compute; reflexivity. Qed.

(** C4, as amended: when content resolution succeeds, the title is the
    trimmed value of the last [name] line of the front-matter block if the
    block has one, and the declared name otherwise; it is non-empty as
    soon as the declared name is non-empty and that trimmed value is not
    the empty string. *)
Theorem ReloadContent_title w n data :
  ReadFile w (FileName n) = Some data →
  len data ≤ int_max →
  layout_of data ≠ Unclosed →
  ∃ n', ReloadContent w n = Ok (None, n')
    ∧ Title n' = match layout_of data with
                 | FrontMatter block _ =>
                     default (Name n) (front_matter_name block)
                 | _ => Name n
                 end
    ∧ (Name n ≠ [] →
       (∀ block body, layout_of data = FrontMatter block body →
                      front_matter_name block ≠ Some []) →
       Title n' ≠ []).
Proof.
  intros Hread Hlen Hclosed.
  destruct (layout_of data) as [| |block body] eqn:Hlay; [|done|].
  - destruct (ReloadContent_parsed w n data (Name n) [] Hread)
      as (n' & Hn' & Ht & _).
    { by apply parseNodeName_no_front_matter. }
    exists n'. rewrite Ht. by repeat split.
  - destruct (ReloadContent_parsed w n data
                (default (Name n) (front_matter_name block)) body Hread)
      as (n' & Hn' & Ht & _).
    { by apply parseNodeName_front_matter. }
    exists n'. rewrite Ht. repeat split; [done|].
    intros Hname Hval. specialize (Hval block body eq_refl).
    destruct (front_matter_name block) as [v|]; simpl; [|done].
    congruence.
Qed.

(** C5, at a file whose body is emptied between two reads in development
    mode: the second read marks the node plain and leaves the rendering
    and the plain text of the first read in place, and [Content] returns
    those stale bytes. *)
Theorem plain_node_keeps_stale_content :
  let body := newline ++ str "hello" in
  let st2 := mk_state (disk [(FileName node_intro, doc_emptied)]) false [] [] [] in
  ∃ n1 n2,
    ReloadContent (disk [(FileName node_intro, doc_hello)]) node_intro
      = Ok (None, n1)
    ∧ Plain n1 = false
    ∧ Content st2 n1 = Ok (markdown body, n2)
    ∧ Plain n2 = true
    ∧ content n2 = markdown body
    ∧ Text n2 = bytes_ToLower (renderText body).
Proof.
  eexists _, _. repeat split; try (vm_compute; reflexivity).
Qed.

End ContentResolution.

(** C4 as the specification states it fails: a front matter whose [name]
    line has nothing after the colon leaves the node with an empty title,
    although its declared name is [intro]. *)
Lemma blank_name_gives_empty_title :
  ∃ n', @ReloadContent stub (disk [(FileName node_intro, doc_blank_name)])
          node_intro = Ok (None, n')
        ∧ Name n' = str "intro" ∧ Title n' = [].
Proof. eexists. repeat split; vm_compute; reflexivity. Qed.

Lemma ReloadContent_title_witness :
  ReadFile (disk [(FileName node_intro, doc_hello)]) (FileName node_intro)
    = Some doc_hello
  ∧ len doc_hello ≤ int_max
  ∧ layout_of doc_hello ≠ Unclosed
  ∧ ∃ n', @ReloadContent stub (disk [(FileName node_intro, doc_hello)])
            node_intro = Ok (None, n')
      ∧ Title n' = match layout_of doc_hello with
                   | FrontMatter block _ =>
                       default (Name node_intro) (front_matter_name block)
                   | _ => Name node_intro
                   end
      ∧ (Name node_intro ≠ [] →
         (∀ block body, layout_of doc_hello = FrontMatter block body →
                        front_matter_name block ≠ Some []) →
         Title n' ≠ []).
Proof.
  split; [reflexivity|]. split; [by vm_compute|]. split; [by vm_compute|].
  apply (@ReloadContent_title stub); [reflexivity|by vm_compute|by vm_compute].
Defined.

(** ** Paths *)

Lemma is_segment_cons c s :
  is_segment (c :: s) = true ↔ Ascii.eqb "/" c = false ∧ is_segment s = true.
Proof.
  unfold is_segment. cbn [forallb].
  by rewrite andb_true_iff, negb_true_iff, Ascii.eqb_sym.
Qed.

Lemma index_nat_cons c s sep :
  index_nat (c :: s) sep =
  if HasPrefix (c :: s) sep then Some 0%nat else S <$> index_nat s sep.
Proof. done. Qed.

Lemma HasPrefix_slash c s : HasPrefix (c :: s) (str "/") = Ascii.eqb "/" c.
Proof. change (str "/") with ["/"%char]. cbn [HasPrefix]. apply andb_true_r. Qed.

Lemma index_nat_segment s :
  is_segment s = true → index_nat s (str "/") = None.
Proof.
  induction s as [|c s IH]; [done|].
  rewrite is_segment_cons. intros [Hc Hs].
  by rewrite index_nat_cons, HasPrefix_slash, Hc, IH.
Qed.

Lemma index_nat_slash a r :
  is_segment a = true →
  index_nat (a ++ "/"%char :: r) (str "/") = Some (length a).
Proof.
  induction a as [|c a IH]; [done|].
  rewrite is_segment_cons. intros [Hc Hs].
  rewrite <- app_comm_cons, index_nat_cons, HasPrefix_slash, Hc, IH by done.
  done.
Qed.

Lemma join_path_cons s0 s1 rest :
  join_path (s0 :: s1 :: rest) = s0 ++ "/"%char :: join_path (s1 :: rest).
Proof. done. Qed.

Lemma drop_past_sep (a : gostring) c r :
  drop (length a + 1) (a ++ c :: r) = r.
Proof.
  rewrite cons_middle, app_assoc. apply drop_app_length'.
  rewrite length_app. simpl. lia.
Qed.

Lemma join_path_singleton s0 : join_path [s0] = s0.
Proof. unfold join_path. simpl. apply app_nil_r. Qed.

Lemma join_path_length s0 rest :
  (length rest ≤ length (join_path (s0 :: rest)))%nat.
Proof.
  revert s0. induction rest as [|s1 rest IH]; intros s0; [simpl; lia|].
  rewrite join_path_cons, length_app. cbn [length]. specialize (IH s1). lia.
Qed.

Lemma Count_loop_join fuel s0 rest :
  forallb is_segment (s0 :: rest) = true →
  (length (join_path (s0 :: rest)) ≤ fuel)%nat →
  Count_loop fuel (join_path (s0 :: rest)) (str "/") = length rest.
Proof.
  revert fuel s0. induction rest as [|s1 rest IH]; intros fuel s0 Hseg Hfuel.
  - rewrite join_path_singleton in *. simpl in Hseg.
    rewrite andb_true_r in Hseg.
    destruct fuel; [done|]. simpl. by rewrite index_nat_segment.
  - rewrite join_path_cons in *. simpl in Hseg.
    apply andb_true_iff in Hseg as [Hs0 Hseg].
    rewrite length_app in Hfuel. simpl in Hfuel.
    destruct fuel as [|fuel]; [lia|]. simpl.
    rewrite index_nat_slash by done.
    change (length (str "/")) with 1%nat.
    rewrite drop_past_sep. rewrite IH; [done|done|lia].
Qed.

Lemma genSplit_loop_join k s0 rest :
  forallb is_segment (s0 :: rest) = true →
  (length rest ≤ k)%nat →
  genSplit_loop k (join_path (s0 :: rest)) (str "/") = s0 :: rest.
Proof.
  revert k s0. induction rest as [|s1 rest IH]; intros k s0 Hseg Hk.
  - rewrite join_path_singleton. simpl in Hseg.
    rewrite andb_true_r in Hseg.
    destruct k; [done|]. simpl. by rewrite index_nat_segment.
  - rewrite join_path_cons. simpl in Hseg.
    apply andb_true_iff in Hseg as [Hs0 Hseg]. simpl in Hk.
    destruct k as [|k]; [lia|]. simpl.
    rewrite index_nat_slash by done.
    change (length (str "/")) with 1%nat.
    rewrite take_app_length, drop_past_sep. rewrite IH; [done|done|lia].
Qed.

(** [Split] recovers the segments of a path. *)
Lemma Split_join_path s0 rest :
  forallb is_segment (s0 :: rest) = true →
  Split (join_path (s0 :: rest)) (str "/") = s0 :: rest.
Proof.
  intros Hseg. unfold Split, genSplit.
  change (-1 =? 0) with false. change (-1 <? 0) with true. cbv iota.
  unfold Count. rewrite Count_loop_join by done.
  pose proof (join_path_length s0 rest) as Hl.
  destruct (_ >? _) eqn:Hcap.
  - apply genSplit_loop_join; [done|]. unfold len. lia.
  - apply genSplit_loop_join; [done|]. lia.
Qed.

Lemma TrimPrefix_join_path s0 rest :
  is_segment s0 = true → s0 ≠ [] →
  TrimPrefix (join_path (s0 :: rest)) (str "/") = join_path (s0 :: rest).
Proof.
  intros Hseg Hne. destruct s0 as [|c s0]; [done|].
  apply is_segment_cons in Hseg as [Hc _].
  unfold TrimPrefix, join_path. cbn [app].
  by rewrite HasPrefix_slash, Hc.
Qed.

Lemma TrimPrefix_slash name :
  TrimPrefix ("/"%char :: name) (str "/") = name.
Proof. done. Qed.

Lemma join_path_nonempty s0 rest :
  s0 ≠ [] → (len (join_path (s0 :: rest)) =? 0) = false.
Proof.
  intros Hne. destruct s0; [done|]. apply Z.eqb_neq.
  unfold len, join_path. simpl. lia.
Qed.

(** ** Lookup *)

Lemma lookup_Name_inj (l : list Node) i j x y :
  NoDup (Name <$> l) → l !! i = Some x → l !! j = Some y →
  Name x = Name y → i = j.
Proof.
  intros Hnd Hi Hj Heq.
  eapply (NoDup_lookup _ i j (Name x) Hnd); rewrite list_lookup_fmap.
  - by rewrite Hi.
  - by rewrite Hj, Heq.
Qed.

Lemma list_find_Name (l : list Node) j n :
  NoDup (Name <$> l) → l !! j = Some n →
  list_find (λ c, Name c = Name n) l = Some (j, n).
Proof.
  intros Hnd Hj. apply list_find_Some. repeat split; [done..|].
  intros k y Hk Hlt Heq.
  pose proof (lookup_Name_inj l k j y n Hnd Hk Hj Heq). lia.
Qed.

(** With unique sibling names the two loops stop at the one child the
    path names. *)
Lemma find_file_unique nodes k i d j n :
  NoDup (Name <$> nodes) → nodes !! i = Some d →
  NoDup (Name <$> Nodes d) → Nodes d !! j = Some n →
  find_file nodes (Name d) (Name n) k = Some ((k + i)%nat, j, n).
Proof.
  revert k i. induction nodes as [|x nodes IH]; intros k i Hnd Hi Hndd Hj;
    [done|].
  destruct i as [|i]; simpl in Hi.
  - injection Hi as ->. simpl. rewrite decide_True by done.
    rewrite (list_find_Name _ j n) by done. do 3 f_equal. lia.
  - simpl. destruct (decide (Name x = Name d)) as [Heq|Hne].
    + pose proof (lookup_Name_inj (x :: nodes) 0 (S i) x d Hnd eq_refl Hi Heq).
      lia.
    + rewrite (IH (S k) i); [do 3 f_equal; lia| |done..].
      by apply NoDup_cons in Hnd as [_ ?].
Qed.

Lemma store_dir_same st a toc i n :
  heap st !! a = Some toc → Toc_Nodes toc !! i = Some n →
  store_dir st a i n = st.
Proof.
  intros Ha Hi. unfold store_dir. rewrite Ha.
  rewrite (list_insert_id _ _ _ Hi).
  replace (set_Toc_Nodes toc (Toc_Nodes toc)) with toc by by destruct toc.
  rewrite (list_insert_id _ _ _ Ha). by destruct st.
Qed.

Section Lookup.
Context `{Externals}.

Lemma GetDoc_trim fuel st t n1 n2 :
  TrimPrefix n1 (str "/") = TrimPrefix n2 (str "/") →
  GetDoc fuel st t n1 = GetDoc fuel st t n2.
Proof. intros Heq. destruct fuel; [done|]. cbn [GetDoc]. by rewrite Heq. Qed.

Lemma GetDoc_no_tree fuel st t name :
  (t ≫= λ a, heap st !! a) = None → GetDoc (S fuel) st t name = Panic.
Proof.
  intros Hno. cbn [GetDoc]. destruct t as [a|]; [|done]. simpl in *.
  by rewrite Hno.
Qed.

(** The file-node case of [GetDoc], for a path of two or more segments. *)
Lemma GetDoc_file_case fuel st a toc dir file extra :
  heap st !! a = Some toc →
  forallb is_segment (dir :: file :: extra) = true → dir ≠ [] →
  GetDoc (S fuel) st (Some a) (join_path (dir :: file :: extra)) =
  match find_file (Toc_Nodes toc) dir file 0 with
  | Some (i, j, n) =>
      if IsFile (world st) (FileName n) then
        '(title, c, n') ← title_and_content st n;
        Ok ((title, c, false), store_file st a i j n')
      else
        match Langs st with
        | [] => Panic
        | lang0 :: _ =>
            '(d, st') ← GetDoc fuel st (Tocs st !! lang0)
                          (join_path (dir :: file :: extra));
            Ok ((d.1.1, d.1.2, true), st')
        end
  | None => Ok (not_found, st)
  end.
Proof.
  intros Hheap Hseg Hne.
  assert (is_segment dir = true) as Hdir.
  { simpl in Hseg. by apply andb_true_iff in Hseg as [? _]. }
  cbn [GetDoc]. rewrite TrimPrefix_join_path by done.
  simpl (Some a ≫= _). rewrite Hheap. simpl (_ <$> Some toc).
  rewrite join_path_nonempty by done.
  rewrite Split_join_path by done.
  assert ((len (dir :: file :: extra) =? 1) = false) as ->; [|done].
  apply Z.eqb_neq. unfold len. cbn [length]. lia.
Qed.


(** C3, at a registry with one language whose tree lists [guide/setup]
    while [docs/en/guide/setup.md] is not on the disk: the call on the
    default language's own tree calls itself with the same arguments, so
    no amount of fuel lets it return. *)
Theorem GetDoc_default_language_missing_file_diverges :
  ∀ fuel, GetDoc fuel st_default_missing (Some 0%nat) (str "guide/setup")
          = OutOfFuel.
Proof.
  induction fuel as [|fuel IH]; [done|].
  change (str "guide/setup") with (join_path [str "guide"; str "setup"]) in *.
  rewrite (GetDoc_file_case fuel st_default_missing 0 (toc_guide "en"))
    by done.
  change (Tocs st_default_missing !! str "en") with (Some 0%nat) in *.
  assert (find_file (Toc_Nodes (toc_guide "en")) (str "guide") (str "setup") 0
          = Some (0%nat, 0%nat,
                  new_Node (str "setup") (str "docs/en/guide/setup.md") []))
    as -> by reflexivity.
  assert (IsFile (world st_default_missing) (str "docs/en/guide/setup.md")
          = false) as Hmiss by reflexivity.
  cbn [FileName new_Node]. rewrite Hmiss.
  assert (Langs st_default_missing = [str "en"]) as -> by reflexivity.
  assert (Tocs st_default_missing !! str "en" = Some 0%nat) as ->
    by reflexivity.
  by rewrite IH.
Qed.

(** C6: with the empty path [GetDoc] reports not-found when the tree has
    no directory node or the first one is plain, and otherwise returns the
    first directory node's title and content with the fallback flag off:
    the cached content in production mode, the content just read again in
    development mode. *)
Theorem GetDoc_empty_path fuel st a toc :
  heap st !! a = Some toc →
  GetDoc (S fuel) st (Some a) [] =
  match Toc_Nodes toc with
  | [] => Ok (not_found, st)
  | n0 :: _ =>
      if Plain n0 then Ok (not_found, st)
      else if ProdMode st then Ok ((Title n0, content n0, false), st)
      else
        '(_, n') ← ReloadContent (world st) n0;
        Ok ((if title_read_first then Title n0 else Title n',
             content n', false), store_dir st a 0 n')
  end.
Proof.
  intros Hheap. cbn [GetDoc]. simpl (Some a ≫= _). rewrite Hheap.
  simpl. destruct (Toc_Nodes toc) as [|n0 rest] eqn:Hnodes; [done|].
  destruct (Plain n0); [done|].
  unfold title_and_content, Content.
  destruct (ProdMode st); simpl.
  - rewrite (store_dir_same st a toc 0 n0); [|done|by rewrite Hnodes].
    by destruct title_read_first.
  - destruct (ReloadContent (world st) n0) as [[e n']| |]; done.
Qed.

(** C10: a path of more than two segments is answered as the path of its
    first two segments is; the further segments are never looked at. *)
Theorem GetDoc_extra_segments_ignored
    fuel st t (leading_slash : bool) dir file extra :
  forallb is_segment (dir :: file :: extra) = true → dir ≠ [] →
  GetDoc fuel st t
    ((if leading_slash then str "/" else []) ++ join_path (dir :: file :: extra))
  = GetDoc fuel st t (join_path [dir; file]).
Proof.
  intros Hseg Hne.
  assert (forallb is_segment [dir; file] = true) as Hseg2.
  { simpl in *. apply andb_true_iff in Hseg as [-> Hseg].
    apply andb_true_iff in Hseg as [-> _]. done. }
  assert (is_segment dir = true) as Hdir.
  { simpl in Hseg. by apply andb_true_iff in Hseg as [? _]. }
  transitivity (GetDoc fuel st t (join_path (dir :: file :: extra))).
  { apply GetDoc_trim. destruct leading_slash; [|done].
    change (str "/" ++ ?p) with ("/"%char :: p).
    by rewrite TrimPrefix_slash, TrimPrefix_join_path. }
  revert t. induction fuel as [|fuel IH]; intros t; [done|].
  destruct (t ≫= λ a, heap st !! a) as [toc|] eqn:Ht.
  - destruct t as [a|]; [|done]. simpl in Ht.
    rewrite !(GetDoc_file_case fuel st a toc) by done.
    destruct (find_file _ _ _ _) as [[[i j] n]|]; [|done].
    destruct (IsFile _ _); [done|].
    destruct (Langs st) as [|lang0 langs]; [done|].
    by rewrite IH.
  - by rewrite !GetDoc_no_tree.
Qed.

End Lookup.

(** ** Search *)

Lemma HasPrefix_iff s p : HasPrefix s p = true ↔ ∃ r, s = p ++ r.
Proof.
  split.
  - intros Hp. eexists. by apply HasPrefix_true.
  - intros [r ->]. apply HasPrefix_app.
Qed.

Lemma occurs_at_0 text q : occurs_at text q 0 ↔ HasPrefix text q = true.
Proof.
  rewrite HasPrefix_iff. unfold occurs_at. split.
  - intros (before & after & -> & Hl). apply nil_length_inv in Hl as ->.
    by exists after.
  - intros [r ->]. by exists [], r.
Qed.

Lemma occurs_at_S c text q i :
  occurs_at (c :: text) q (S i) ↔ occurs_at text q i.
Proof.
  unfold occurs_at. split.
  - intros (before & after & Heq & Hl). destruct before as [|b before]; [done|].
    simpl in *. injection Heq as -> ->. exists before, after. split; [done|lia].
  - intros (before & after & -> & Hl). exists (c :: before), after.
    split; [done|]. simpl. lia.
Qed.

Lemma occurs_at_nil q i : occurs_at [] q i → i = 0%nat.
Proof.
  intros (before & after & Heq & Hl). symmetry in Heq.
  apply app_eq_nil in Heq as [-> _]. by simpl in Hl.
Qed.

(** [Index] finds the first occurrence. *)
Lemma index_nat_Some text q i :
  index_nat text q = Some i → first_occurrence text q i.
Proof.
  revert i. induction text as [|c text IH]; intros i.
  - simpl. destruct (HasPrefix [] q) eqn:Hp; [|done]. intros [= <-].
    split; [by apply occurs_at_0|lia].
  - rewrite index_nat_cons. destruct (HasPrefix (c :: text) q) eqn:Hp.
    + intros [= <-]. split; [by apply occurs_at_0|lia].
    + destruct (index_nat text q) as [k|]; [|done]. intros [= <-].
      destruct (IH k eq_refl) as [Hk Hfirst]. split.
      * by apply occurs_at_S.
      * intros [|j] Hj.
        -- rewrite occurs_at_0. congruence.
        -- rewrite occurs_at_S. apply Hfirst. lia.
Qed.

Lemma index_nat_None text q i :
  index_nat text q = None → ¬ occurs_at text q i.
Proof.
  revert i. induction text as [|c text IH]; intros i.
  - simpl. destruct (HasPrefix [] q) eqn:Hp; [done|]. intros _ Hocc.
    pose proof (occurs_at_nil _ _ Hocc) as ->.
    apply occurs_at_0 in Hocc. congruence.
  - rewrite index_nat_cons. destruct (HasPrefix (c :: text) q) eqn:Hp; [done|].
    destruct (index_nat text q) as [k|] eqn:Hk; [done|]. intros _.
    destruct i as [|i].
    + rewrite occurs_at_0. congruence.
    + rewrite occurs_at_S. by apply IH.
Qed.

Lemma adjustRange_window (i L N : Z) :
  0 ≤ i → 0 ≤ L → i + L ≤ N → N + 230 ≤ int_max →
  adjustRange i (int_add i L) N
  = (Z.max 0 (i - 20), Z.min N (i + L + 230)).
Proof.
  intros Hi HL HN Hmax. destruct int_consts as (Hmin & Hmx & _).
  unfold adjustRange, int_add, int_sub.
  rewrite (wrap_id (i + L)) by lia. rewrite (wrap_id (i - 20)) by lia.
  rewrite (wrap_id (i + L + 230)) by lia.
  f_equal.
  - destruct (i - 20 <? 0) eqn:Hlt; [apply Z.ltb_lt in Hlt|apply Z.ltb_ge in Hlt];
      lia.
  - rewrite Z.gtb_ltb.
    destruct (N <? i + L + 230) eqn:Hlt;
      [apply Z.ltb_lt in Hlt|apply Z.ltb_ge in Hlt]; lia.
Qed.

Section SearchProperties.
Context `{Externals}.

(** One node: its result, if any, goes to the end of [results]. *)
Lemma search_node_result q title path text results :
  len text + 230 ≤ int_max →
  search_node q title path text results
  = Ok (results ++ option_list (result_of q title path text)).
Proof.
  intros Hmax. unfold search_node, result_of, Index.
  destruct (index_nat text q) as [i|] eqn:Hi.
  - pose proof (index_nat_bound _ _ _ Hi) as Hb.
    assert ((Z.of_nat i >? -1) = true) as ->.
    { rewrite Z.gtb_ltb. apply Z.ltb_lt. lia. }
    rewrite adjustRange_window by (unfold len in *; lia).
    unfold slice, window. simpl.
    assert ((0 <=? Z.max 0 (Z.of_nat i - 20))
            && (Z.max 0 (Z.of_nat i - 20) <=?
                Z.min (len text) (Z.of_nat i + len q + 230))
            && (Z.min (len text) (Z.of_nat i + len q + 230) <=? len text)
            = true) as ->; [|done].
    rewrite !andb_true_iff, !Z.leb_le. unfold len in *. lia.
  - simpl. by rewrite app_nil_r.
Qed.

Lemma search_dirs_results q nodes results :
  Forall (λ text, len text + 230 ≤ int_max) (Text <$> nodes) →
  search_dirs q nodes results
  = Ok (results ++ omap (λ n, result_of q (Title n) (Name n) (Text n)) nodes).
Proof.
  revert results. induction nodes as [|n nodes IH]; intros results Hb.
  - by rewrite app_nil_r.
  - apply Forall_cons in Hb as [Hn Hb]. cbn [search_dirs].
    rewrite search_node_result by done. simpl. rewrite IH by done.
    rewrite <- app_assoc. do 2 f_equal.
    change (omap ?f (n :: nodes))
      with (match f n with Some y => y :: omap f nodes | None => omap f nodes end).
    by destruct (result_of _ _ _ _).
Qed.

Lemma search_children_results q dir children results :
  Forall (λ text, len text + 230 ≤ int_max) (Text <$> children) →
  search_children q dir children results
  = Ok (results ++
        omap (λ c, result_of q (Title c) (path_Join [dir; Name c]) (Text c))
             children).
Proof.
  revert results. induction children as [|c children IH]; intros results Hb.
  - by rewrite app_nil_r.
  - apply Forall_cons in Hb as [Hc Hb]. cbn [search_children].
    rewrite search_node_result by done. simpl. rewrite IH by done.
    rewrite <- app_assoc. do 2 f_equal.
    change (omap ?f (c :: children))
      with (match f c with
            | Some y => y :: omap f children
            | None => omap f children
            end).
    by destruct (result_of _ _ _ _).
Qed.

Lemma search_files_results q nodes results :
  Forall (λ text, len text + 230 ≤ int_max) (nodes ≫= λ d, Text <$> Nodes d) →
  search_files q nodes results
  = Ok (results ++
        (nodes ≫= λ d,
           omap (λ c, result_of q (Title c) (path_Join [Name d; Name c]) (Text c))
                (Nodes d))).
Proof.
  revert results. induction nodes as [|d nodes IH]; intros results Hb.
  - by rewrite app_nil_r.
  - rewrite bind_cons in Hb. apply Forall_app in Hb as [Hd Hb].
    cbn [search_files]. rewrite search_children_results by done.
    rewrite bind_Ok, IH by done. by rewrite <- app_assoc, bind_cons.
Qed.

(** C7: the results are the matches among the directory nodes, in the
    order of the tree and with the directory name as path, followed by the
    matches among the file nodes, in the order of the tree and with the
    joined directory and file names as path. *)
Theorem Search_directories_before_files t q :
  q ≠ [] → within_int t →
  Search t q = Ok (dir_results (strings_ToLower q) t
                   ++ file_results (strings_ToLower q) t).
Proof.
  intros Hq Hb. apply Forall_app in Hb as [Hdirs Hfiles].
  unfold Search, dir_results, file_results.
  assert ((len q =? 0) = false) as ->.
  { apply Z.eqb_neq. unfold len. destruct q; [done|]. simpl. lia. }
  rewrite search_dirs_results by done. simpl.
  by rewrite search_files_results.
Qed.

Lemma result_of_occurrence q title path text :
  match result_of q title path text with
  | Some r => ∃ i, first_occurrence text q i
                   ∧ res_Match r = window text (Z.of_nat i) (len q)
  | None => ∀ i, ¬ occurs_at text q i
  end.
Proof.
  unfold result_of. destruct (index_nat text q) as [i|] eqn:Hi; simpl.
  - exists i. split; [by apply index_nat_Some|done].
  - intros i. by apply index_nat_None.
Qed.

Lemma omap_id_fmap {A B} (f : A → option B) (l : list A) :
  omap id (f <$> l) = omap f l.
Proof.
  induction l as [|x l IH]; [done|].
  change (omap id (f <$> x :: l))
    with (match f x with
          | Some y => y :: omap id (f <$> l)
          | None => omap id (f <$> l)
          end).
  change (omap f (x :: l))
    with (match f x with Some y => y :: omap f l | None => omap f l end).
  by rewrite IH.
Qed.

(** C8: every node contributes at most one result; it contributes one
    exactly when its text contains the lowercased query, and the snippet
    of that result is the slice [[max(0, i-20), min(N, i+L+230)]] of the
    text around the first occurrence [i] of the query, [L] being the
    length of the lowercased query. *)
Theorem Search_one_snippet_per_node t q :
  q ≠ [] → within_int t →
  ∃ hits : list (option SearchResult),
    Search t q = Ok (omap id hits)
    ∧ Forall2 (λ text hit,
        match hit with
        | Some r =>
            ∃ i, first_occurrence text (strings_ToLower q) i
                 ∧ res_Match r
                   = window text (Z.of_nat i) (len (strings_ToLower q))
        | None => ∀ i, ¬ occurs_at text (strings_ToLower q) i
        end) (texts t) hits.
Proof.
  intros Hq Hb. set (q' := strings_ToLower q).
  exists (((λ n, result_of q' (Title n) (Name n) (Text n)) <$> Toc_Nodes t)
          ++ (Toc_Nodes t ≫= λ d,
                (λ c, result_of q' (Title c) (path_Join [Name d; Name c]) (Text c))
                  <$> Nodes d)).
  split.
  - apply Forall_app in Hb as [Hdirs Hfiles]. unfold Search.
    assert ((len q =? 0) = false) as ->.
    { apply Z.eqb_neq. unfold len. destruct q; [done|]. simpl. lia. }
    rewrite search_dirs_results by done. rewrite bind_Ok.
    rewrite search_files_results by done. fold q'.
    rewrite omap_app, omap_id_fmap. do 2 f_equal.
    clear. induction (Toc_Nodes t) as [|d nodes IH]; [done|].
    by rewrite !bind_cons, omap_app, omap_id_fmap, IH.
  - unfold texts. apply Forall2_app.
    + apply Forall2_fmap, Forall_Forall2_diag, Forall_forall.
      intros n _. apply result_of_occurrence.
    + clear. induction (Toc_Nodes t) as [|d nodes IH]; [constructor|].
      rewrite !bind_cons. apply Forall2_app; [|done].
      apply Forall2_fmap, Forall_Forall2_diag, Forall_forall.
      intros c _. apply result_of_occurrence.
Qed.

End SearchProperties.

(** ** Reload *)

Section Reload.
Context `{Externals}.

Lemma set_world_same st : set_world st (world st) = st.
Proof. by destruct st. Qed.

(** Fetching the source touches the disk and nothing else. *)
Lemma ensure_source_keeps_registry st st1 r :
  ensure_source st = (st1, r) → st1 = set_world st (world st1).
Proof.
  unfold ensure_source.
  repeat (case_match; simplify_eq; try done);
    intros; simplify_eq; by rewrite ?set_world_same.
Qed.


(** A missing or unparsable TOC.ini makes the loader fail. *)
Lemma initToc_no_index st localRoot :
  IsFile (world st) (path_Join [localRoot; str "TOC.ini"]) = false
  ∨ ini_Load (world st) (path_Join [localRoot; str "TOC.ini"]) = None →
  ∃ e, initToc st localRoot = inl e.
Proof.
  unfold initToc. intros [Hno|Hbad].
  - rewrite Hno. by eexists.
  - rewrite Hbad. destruct (negb _); by eexists.
Qed.






End Reload.

(** ** The theorems at sample data *)


Lemma GetDoc_empty_path_witness :
  heap st_untranslated !! 0%nat = Some (toc_guide "en")
  ∧ @GetDoc stub 1 st_untranslated (Some 0%nat) [] =
    match Toc_Nodes (toc_guide "en") with
    | [] => Ok (not_found, st_untranslated)
    | n0 :: _ =>
        if Plain n0 then Ok (not_found, st_untranslated)
        else if ProdMode st_untranslated
        then Ok ((Title n0, content n0, false), st_untranslated)
        else
          '(_, n') ← @ReloadContent stub (world st_untranslated) n0;
          Ok ((if @title_read_first stub then Title n0 else Title n',
               content n', false), store_dir st_untranslated 0 0 n')
    end.
Proof.
  split; [reflexivity|].
  apply (@GetDoc_empty_path stub 0 st_untranslated 0 (toc_guide "en")).
  reflexivity.
Defined.

Lemma GetDoc_extra_segments_ignored_witness :
  forallb is_segment [str "guide"; str "setup"; str "extra"] = true
  ∧ str "guide" ≠ []
  ∧ @GetDoc stub 2 st_untranslated (Some 1%nat)
      (str "/" ++ join_path [str "guide"; str "setup"; str "extra"])
    = @GetDoc stub 2 st_untranslated (Some 1%nat)
        (join_path [str "guide"; str "setup"]).
Proof.
  split; [reflexivity|]. split; [done|].
  apply (@GetDoc_extra_segments_ignored stub 2 st_untranslated (Some 1%nat)
           true (str "guide") (str "setup") [str "extra"]);
    [reflexivity|done].
Defined.

Lemma within_int_toc_texts : within_int toc_texts.
Proof. repeat constructor; by vm_compute. Qed.

Lemma Search_directories_before_files_witness :
  str "peach" ≠ [] ∧ within_int toc_texts
  ∧ @Search stub toc_texts (str "peach")
    = Ok (dir_results (@strings_ToLower stub (str "peach")) toc_texts
          ++ @file_results stub (@strings_ToLower stub (str "peach")) toc_texts).
Proof.
  split; [done|]. split; [apply within_int_toc_texts|].
  apply (@Search_directories_before_files stub toc_texts (str "peach"));
    [done|apply within_int_toc_texts].
Defined.

Lemma Search_one_snippet_per_node_witness :
  str "peach" ≠ [] ∧ within_int toc_texts
  ∧ ∃ hits : list (option SearchResult),
      @Search stub toc_texts (str "peach") = Ok (omap id hits)
      ∧ Forall2 (λ text hit,
          match hit with
          | Some r =>
              ∃ i, first_occurrence text (@strings_ToLower stub (str "peach")) i
                   ∧ res_Match r
                     = window text (Z.of_nat i)
                         (len (@strings_ToLower stub (str "peach")))
          | None => ∀ i, ¬ occurs_at text (@strings_ToLower stub (str "peach")) i
          end) (texts toc_texts) hits.
Proof.
  split; [done|]. split; [apply within_int_toc_texts|].
  apply (@Search_one_snippet_per_node stub toc_texts (str "peach"));
    [done|apply within_int_toc_texts].
Defined.



(** * Further properties of the code *)

(** ** Content resolution *)

Section MoreContentResolution.
Context `{Externals}.

(** A document that does not start with the marker has its whole text
    dropped: the title is the declared name, the node is plain, and
    nothing is rendered. *)
Theorem ReloadContent_without_front_matter w n data :
  ReadFile w (FileName n) = Some data →
  layout_of data = NoFrontMatter →
  ReloadContent w n
  = Ok (None, mkNode (Name n) (Name n) (content n) (Text n) true
                     (FileName n) (Nodes n)).
Proof.
  intros Hread Hlay. unfold ReloadContent.
  by rewrite Hread, (parseNodeName_no_front_matter _ _ Hlay).
Qed.

(** Reading an unchanged file a second time changes nothing. *)
Theorem ReloadContent_idempotent w n e n' :
  ReloadContent w n = Ok (e, n') → ReloadContent w n' = Ok (e, n').
Proof.
  unfold ReloadContent.
  destruct (ReadFile w (FileName n)) as [data|] eqn:Hread.
  - destruct (parseNodeName (Name n) data) as [[title body]| |] eqn:Hparse;
      [|done..].
    rewrite bind_Ok.
    destruct (len (TrimSpace body) =? 0) eqn:Hplain; simpl;
      intros [= <- <-]; simpl; rewrite Hread, Hparse, bind_Ok, Hplain; done.
  - intros [= <- <-]. by rewrite Hread.
Qed.

(** On a node that was never rendered, a resolution that ends with the
    node plain leaves it without rendering and without plain text. *)
Theorem first_resolution_plain_has_no_content w n e n' :
  content n = None → Text n = [] →
  ReloadContent w n = Ok (e, n') →
  Plain n' = true → content n' = None ∧ Text n' = [].
Proof.
  intros Hc Ht. unfold ReloadContent.
  destruct (ReadFile w (FileName n)) as [data|].
  - destruct (parseNodeName (Name n) data) as [[title body]| |]; [|done..].
    rewrite bind_Ok.
    destruct (len (TrimSpace body) =? 0); simpl; intros [= <- <-]; simpl; done.
  - by intros [= <- <-].
Qed.

(** [Content] returns the [content] field of the node as the call leaves
    it, and the call never changes the name, the file or the children. *)
Theorem Content_keeps_identity st n c n' :
  Content st n = Ok (c, n') →
  c = content n' ∧ Name n' = Name n ∧ FileName n' = FileName n
  ∧ Nodes n' = Nodes n.
Proof.
  unfold Content, ReloadContent. destruct (ProdMode st); simpl.
  - by intros [= <- <-].
  - destruct (ReadFile _ _) as [data|]; simpl.
    + destruct (parseNodeName (Name n) data) as [[title body]| |]; [|done..].
      simpl. destruct (len (TrimSpace body) =? 0); simpl;
        by intros [= <- <-].
    + by intros [= <- <-].
Qed.

(** In production mode, and in development mode when the file cannot be
    read, [Content] returns the cached bytes and leaves the node alone. *)
Theorem Content_cached st n :
  ProdMode st = true ∨ ReadFile (world st) (FileName n) = None →
  Content st n = Ok (content n, n).
Proof.
  unfold Content, ReloadContent. intros [->|Hread]; [done|].
  destruct (ProdMode st); [done|]. simpl. by rewrite Hread.
Qed.

End MoreContentResolution.

Lemma ReloadContent_without_front_matter_witness :
  ReadFile (disk [(FileName node_intro, doc_bare)]) (FileName node_intro)
    = Some doc_bare
  ∧ layout_of doc_bare = NoFrontMatter
  ∧ @ReloadContent stub (disk [(FileName node_intro, doc_bare)]) node_intro
    = Ok (None, mkNode (Name node_intro) (Name node_intro)
                  (content node_intro) (Text node_intro) true
                  (FileName node_intro) (Nodes node_intro)).
Proof.
  split; [reflexivity|]. split; [reflexivity|].
  apply (@ReloadContent_without_front_matter stub
           (disk [(FileName node_intro, doc_bare)]) node_intro doc_bare);
    reflexivity.
Defined.

Lemma ReloadContent_idempotent_witness :
  let w := disk [(FileName node_intro, doc_hello)] in
  let n1 := mkNode (str "intro") (str "Intro")
              (Some (str "<p>" ++ newline ++ str "hello"))
              (newline ++ str "hello") false (str "docs/en/intro.md") [] in
  @ReloadContent stub w node_intro = Ok (None, n1)
  ∧ @ReloadContent stub w n1 = Ok (None, n1).
Proof.
  intros w n1. split; [reflexivity|].
  apply (@ReloadContent_idempotent stub w node_intro None n1). reflexivity.
Defined.

Lemma first_resolution_plain_has_no_content_witness :
  let w := disk [(FileName node_intro, doc_emptied)] in
  let n1 := mkNode (str "intro") (str "Intro") None [] true
              (str "docs/en/intro.md") [] in
  content node_intro = None ∧ Text node_intro = []
  ∧ @ReloadContent stub w node_intro = Ok (None, n1)
  ∧ Plain n1 = true
  ∧ content n1 = None ∧ Text n1 = [].
Proof.
  intros w n1. do 4 (split; [reflexivity|]).
  apply (@first_resolution_plain_has_no_content stub w node_intro None n1);
    reflexivity.
Defined.

Lemma Content_keeps_identity_witness :
  let st := mk_state (disk [(FileName node_intro, doc_hello)]) false [] [] [] in
  let n1 := mkNode (str "intro") (str "Intro")
              (Some (str "<p>" ++ newline ++ str "hello"))
              (newline ++ str "hello") false (str "docs/en/intro.md") [] in
  @Content stub st node_intro = Ok (content n1, n1)
  ∧ content n1 = content n1 ∧ Name n1 = Name node_intro
  ∧ FileName n1 = FileName node_intro ∧ Nodes n1 = Nodes node_intro.
Proof.
  intros st n1. split; [reflexivity|].
  apply (@Content_keeps_identity stub st node_intro (content n1) n1).
  reflexivity.
Defined.

Lemma Content_cached_witness :
  let st := mk_state (disk []) false [] [] [] in
  (ProdMode st = true ∨ ReadFile (world st) (FileName node_intro) = None)
  ∧ @Content stub st node_intro = Ok (content node_intro, node_intro).
Proof.
  intros st. split; [by right|].
  apply (@Content_cached stub st node_intro). by right.
Defined.

(** ** Lookup *)

Lemma same_registry_refl st : same_registry st st.
Proof. by repeat split. Qed.

Lemma store_dir_registry st a i n : same_registry st (store_dir st a i n).
Proof.
  unfold store_dir. destruct (heap st !! a); [|apply same_registry_refl].
  repeat split; simpl; try done. apply length_insert.
Qed.

Lemma store_file_registry st a i j n : same_registry st (store_file st a i j n).
Proof.
  unfold store_file. destruct (_ ≫= _); [|apply same_registry_refl].
  apply store_dir_registry.
Qed.

Lemma store_file_same st a toc i d j n :
  heap st !! a = Some toc → Toc_Nodes toc !! i = Some d →
  Nodes d !! j = Some n → store_file st a i j n = st.
Proof.
  intros Ha Hi Hj. unfold store_file. rewrite Ha. simpl. rewrite Hi.
  rewrite (list_insert_id _ _ _ Hj).
  replace (set_Nodes d (Nodes d)) with d by by destruct d.
  by apply (store_dir_same st a toc).
Qed.

Lemma receiver_lookup st t a toc :
  (t ≫= λ a, pair a <$> heap st !! a) = Some (a, toc) →
  t = Some a ∧ heap st !! a = Some toc.
Proof.
  destruct t as [b|]; [|done]. simpl.
  destruct (heap st !! b) eqn:Hb; [|done]. simpl. by intros [= <- <-].
Qed.

(** What [find_file] finds is a child with the two names. *)
Lemma find_file_Some nodes dir file k i j n :
  find_file nodes dir file k = Some (i, j, n) →
  ∃ d, (k ≤ i)%nat ∧ nodes !! (i - k)%nat = Some d ∧ Name d = dir
       ∧ Nodes d !! j = Some n ∧ Name n = file.
Proof.
  revert k. induction nodes as [|x nodes IH]; intros k; [done|]. simpl.
  destruct (decide (Name x = dir)) as [Hx|Hx].
  - destruct (list_find _ (Nodes x)) as [[j' c]|] eqn:Hfind.
    + intros [= <- <- <-]. apply list_find_Some in Hfind as (Hj & Hc & _).
      exists x. replace (k - k)%nat with 0%nat by lia. by repeat split.
    + intros Hrec. destruct (IH _ Hrec) as (d & Hk & Hd & Hrest).
      exists d. split; [lia|]. split; [|done].
      replace (i - k)%nat with (S (i - S k)) by lia. done.
  - intros Hrec. destruct (IH _ Hrec) as (d & Hk & Hd & Hrest).
    exists d. split; [lia|]. split; [|done].
    replace (i - k)%nat with (S (i - S k)) by lia. done.
Qed.

Lemma find_file_None nodes dir file k :
  (∀ d, d ∈ nodes → Name d = dir → ∀ c, c ∈ Nodes d → Name c ≠ file) →
  find_file nodes dir file k = None.
Proof.
  revert k. induction nodes as [|x nodes IH]; intros k Hno; [done|]. simpl.
  assert (find_file nodes dir file (S k) = None) as Hrest.
  { apply IH. intros d Hd. apply Hno. by right. }
  destruct (decide (Name x = dir)) as [Hx|Hx]; [|done].
  assert (list_find (λ c, Name c = file) (Nodes x) = None) as ->; [|done].
  apply list_find_None, Forall_forall. intros c Hc.
  apply (Hno x); [by left|done..].
Qed.

Section MoreLookup.
Context `{Externals}.

Lemma title_and_content_cached st n :
  ProdMode st = true →
  title_and_content st n = Ok (Title n, content n, n).
Proof.
  intros Hprod. unfold title_and_content, Content. rewrite Hprod. simpl.
  by destruct title_read_first.
Qed.

(** The directory-node case of [GetDoc], for a path of one segment. *)
Lemma GetDoc_dir_case fuel st a toc dir :
  heap st !! a = Some toc → is_segment dir = true → dir ≠ [] →
  GetDoc (S fuel) st (Some a) dir =
  match list_find (λ n, Name n = dir) (Toc_Nodes toc) with
  | Some (i, n) =>
      '(title, c, n') ← title_and_content st n;
      Ok ((title, c, false), store_dir st a i n')
  | None => Ok (not_found, st)
  end.
Proof.
  intros Hheap Hseg Hne.
  rewrite <- (join_path_singleton dir) at 1.
  cbn [GetDoc]. rewrite TrimPrefix_join_path by done.
  simpl (Some a ≫= _). rewrite Hheap. simpl (_ <$> Some toc).
  rewrite join_path_nonempty by done.
  rewrite Split_join_path by (simpl; by rewrite Hseg).
  done.
Qed.

(** A call that returns leaves the disk, the settings and the registry as
    they were and allocates nothing: it only rewrites nodes in place. *)
Theorem GetDoc_keeps_registry fuel st t name r st' :
  GetDoc fuel st t name = Ok (r, st') → same_registry st st'.
Proof.
  revert t name r st'. induction fuel as [|fuel IH]; intros t name r st';
    [done|].
  cbn [GetDoc].
  destruct (t ≫= _) as [[a toc]|]; [|done].
  destruct (len _ =? 0).
  { destruct (Toc_Nodes toc) as [|n0 ?];
      [intros [= <- <-]; apply same_registry_refl|].
    destruct (Plain n0); [intros [= <- <-]; apply same_registry_refl|].
    destruct (title_and_content st n0) as [[[title c] n']| |]; [|done..].
    simpl. intros [= <- <-]. apply store_dir_registry. }
  destruct (len _ =? 1).
  { destruct (list_find _ _) as [[i n]|];
      [|intros [= <- <-]; apply same_registry_refl].
    destruct (title_and_content st n) as [[[title c] n']| |]; [|done..].
    simpl. intros [= <- <-]. apply store_dir_registry. }
  destruct (find_file _ _ _ _) as [[[i j] n]|];
    [|intros [= <- <-]; apply same_registry_refl].
  destruct (IsFile _ _).
  { destruct (title_and_content st n) as [[[title c] n']| |]; [|done..].
    simpl. intros [= <- <-]. apply store_file_registry. }
  destruct (Langs st) as [|lang0 langs]; [done|].
  destruct (GetDoc fuel st (Tocs st !! lang0) _) as [[d st'']| |] eqn:Hrec;
    [|done..].
  simpl. intros [= <- <-]. by eapply IH.
Qed.

(** In production mode a call that returns has changed nothing at all. *)
Theorem GetDoc_production_mode_reads_only fuel st t name r st' :
  ProdMode st = true →
  GetDoc fuel st t name = Ok (r, st') → st' = st.
Proof.
  intros Hprod. revert t name r st'.
  induction fuel as [|fuel IH]; intros t name r st'; [done|].
  cbn [GetDoc].
  destruct (t ≫= _) as [[a toc]|] eqn:Ht; [|done].
  apply receiver_lookup in Ht as [-> Hheap].
  destruct (len _ =? 0).
  { destruct (Toc_Nodes toc) as [|n0 rest] eqn:Hnodes; [by intros [= <- <-]|].
    destruct (Plain n0); [by intros [= <- <-]|].
    rewrite title_and_content_cached by done. simpl. intros [= <- <-].
    apply (store_dir_same st a toc); [done|by rewrite Hnodes]. }
  destruct (len _ =? 1).
  { destruct (list_find _ _) as [[i n]|] eqn:Hfind; [|by intros [= <- <-]].
    apply list_find_Some in Hfind as (Hi & _).
    rewrite title_and_content_cached by done. simpl. intros [= <- <-].
    by apply (store_dir_same st a toc). }
  destruct (find_file _ _ _ _) as [[[i j] n]|] eqn:Hfind;
    [|by intros [= <- <-]].
  apply find_file_Some in Hfind as (d & _ & Hi & _ & Hj & _).
  rewrite Nat.sub_0_r in Hi.
  destruct (IsFile _ _).
  { rewrite title_and_content_cached by done. simpl. intros [= <- <-].
    by apply (store_file_same st a toc i d). }
  destruct (Langs st) as [|lang0 langs]; [done|].
  destruct (GetDoc fuel st (Tocs st !! lang0) _) as [[d' st'']| |] eqn:Hrec;
    [|done..].
  simpl. intros [= <- <-]. by eapply IH.
Qed.

(** A path of one segment is answered by the directory nodes alone: the
    call never turns to another language, so one unit of fuel is enough
    and the fallback flag is off, and without a directory of that name
    the answer is not-found. *)
Theorem GetDoc_single_segment fuel st a toc dir :
  heap st !! a = Some toc → is_segment dir = true → dir ≠ [] →
  GetDoc (S fuel) st (Some a) dir = GetDoc 1 st (Some a) dir
  ∧ (∀ r st', GetDoc (S fuel) st (Some a) dir = Ok (r, st') → r.2 = false)
  ∧ ((∀ n, n ∈ Toc_Nodes toc → Name n ≠ dir) →
     GetDoc (S fuel) st (Some a) dir = Ok (not_found, st)).
Proof.
  intros Hheap Hseg Hne.
  rewrite !(GetDoc_dir_case _ st a toc) by done. split; [done|]. split.
  - intros r st'. destruct (list_find _ _) as [[i n]|]; [|by intros [= <- _]].
    destruct (title_and_content st n) as [[[title c] n']| |]; [|done..].
    simpl. by intros [= <- _].
  - intros Hno.
    assert (list_find (λ n, Name n = dir) (Toc_Nodes toc) = None) as ->;
      [|done].
    apply list_find_None, Forall_forall. intros n Hn. by apply Hno.
Qed.

(** A path whose first two segments name no child of the tree is answered
    not-found, without a second look in the default language. *)
Theorem GetDoc_unknown_file fuel st a toc dir file extra :
  heap st !! a = Some toc →
  forallb is_segment (dir :: file :: extra) = true → dir ≠ [] →
  (∀ d, d ∈ Toc_Nodes toc → Name d = dir →
        ∀ c, c ∈ Nodes d → Name c ≠ file) →
  GetDoc (S fuel) st (Some a) (join_path (dir :: file :: extra))
  = Ok (not_found, st).
Proof.
  intros Hheap Hseg Hne Hno.
  rewrite (GetDoc_file_case fuel st a toc) by done.
  by rewrite find_file_None.
Qed.

(** When the child the path names has its file on the disk, the answer is
    that child's own title and content with the fallback flag off; in
    production mode these are the cached fields and nothing changes. *)
Theorem GetDoc_existing_file fuel st a toc dir file i d j n :
  heap st !! a = Some toc →
  is_segment dir = true → is_segment file = true → dir ≠ [] →
  NoDup (Name <$> Toc_Nodes toc) → Toc_Nodes toc !! i = Some d →
  Name d = dir →
  NoDup (Name <$> Nodes d) → Nodes d !! j = Some n → Name n = file →
  IsFile (world st) (FileName n) = true →
  GetDoc (S fuel) st (Some a) (join_path [dir; file])
  = ('(c, n') ← Content st n;
     Ok ((if title_read_first then Title n else Title n', c, false),
         store_file st a i j n'))
  ∧ (ProdMode st = true →
     GetDoc (S fuel) st (Some a) (join_path [dir; file])
     = Ok ((Title n, content n, false), st)).
Proof.
  intros Hheap Hdir Hfile Hne Hnd Hi <- Hndd Hj <- Hexists.
  rewrite (GetDoc_file_case fuel st a toc) by (simpl; by rewrite ?Hdir, ?Hfile).
  rewrite (find_file_unique _ 0 i d j n) by done. rewrite Hexists.
  split.
  - unfold title_and_content. by destruct (Content st n) as [[c n']| |].
  - intros Hprod. rewrite title_and_content_cached by done. simpl.
    by rewrite (store_file_same st a toc i d j n).
Qed.

(** The fallback end to end, in production mode: the requested tree lacks
    the file, the default language's tree has it, and the answer is the
    default language's title and content with the fallback flag on. *)
Theorem GetDoc_fallback_answer
    fuel st a toc dir file i d j n lang0 langs a0 toc0 i0 d0 j0 n0 :
  ProdMode st = true →
  heap st !! a = Some toc →
  is_segment dir = true → is_segment file = true → dir ≠ [] →
  NoDup (Name <$> Toc_Nodes toc) → Toc_Nodes toc !! i = Some d →
  Name d = dir →
  NoDup (Name <$> Nodes d) → Nodes d !! j = Some n → Name n = file →
  IsFile (world st) (FileName n) = false →
  Langs st = lang0 :: langs →
  Tocs st !! lang0 = Some a0 → heap st !! a0 = Some toc0 →
  NoDup (Name <$> Toc_Nodes toc0) → Toc_Nodes toc0 !! i0 = Some d0 →
  Name d0 = dir →
  NoDup (Name <$> Nodes d0) → Nodes d0 !! j0 = Some n0 → Name n0 = file →
  IsFile (world st) (FileName n0) = true →
  GetDoc (S (S fuel)) st (Some a) (join_path [dir; file])
  = Ok ((Title n0, content n0, true), st).
Proof.
  intros Hprod Hheap Hdir Hfile Hne Hnd Hi Hd Hndd Hj Hn Hmissing Hlangs
    Ha0 Hheap0 Hnd0 Hi0 Hd0 Hndd0 Hj0 Hn0 Hexists.
  assert (forallb is_segment [dir; file] = true) as Hsegs
    by (simpl; by rewrite Hdir, Hfile).
  rewrite (GetDoc_file_case (S fuel) st a toc) by done.
  rewrite <- Hd, <- Hn at 1.
  rewrite (find_file_unique _ 0 i d j n) by done.
  rewrite Hmissing, Hlangs, Ha0.
  rewrite (GetDoc_file_case fuel st a0 toc0) by done.
  rewrite <- Hd0, <- Hn0 at 1.
  rewrite (find_file_unique _ 0 i0 d0 j0 n0) by done.
  rewrite Hexists, title_and_content_cached by done. simpl.
  by rewrite (store_file_same st a0 toc0 i0 d0 j0 n0).
Qed.

(** The fallback presupposes a default language with a tree: with no
    language configured, or none registered under the first one, the call
    panics. *)
Theorem GetDoc_fallback_without_default_tree
    fuel st a toc dir file i d j n :
  heap st !! a = Some toc →
  is_segment dir = true → is_segment file = true → dir ≠ [] →
  NoDup (Name <$> Toc_Nodes toc) → Toc_Nodes toc !! i = Some d →
  Name d = dir →
  NoDup (Name <$> Nodes d) → Nodes d !! j = Some n → Name n = file →
  IsFile (world st) (FileName n) = false →
  Langs st = [] ∨ (∃ lang0 langs, Langs st = lang0 :: langs
                                  ∧ lookup_Toc st lang0 = None) →
  GetDoc (S (S fuel)) st (Some a) (join_path [dir; file]) = Panic.
Proof.
  intros Hheap Hdir Hfile Hne Hnd Hi <- Hndd Hj <- Hmissing Hdefault.
  rewrite (GetDoc_file_case (S fuel) st a toc)
    by (simpl; by rewrite ?Hdir, ?Hfile).
  rewrite (find_file_unique _ 0 i d j n) by done. rewrite Hmissing.
  destruct Hdefault as [->|(lang0 & langs & -> & Hnone)]; [done|].
  by rewrite GetDoc_no_tree.
Qed.

End MoreLookup.

Lemma NoDup_guide lang : NoDup (Name <$> Toc_Nodes (toc_loaded lang)).
Proof. apply NoDup_singleton. Qed.

Lemma GetDoc_keeps_registry_witness :
  ∃ r st', @GetDoc stub 1 st_untranslated (Some 0%nat) (str "guide")
           = Ok (r, st')
           ∧ same_registry st_untranslated st'.
Proof.
  eexists _, _. split; [vm_compute; reflexivity|].
  eapply (@GetDoc_keeps_registry stub 1 st_untranslated (Some 0%nat)
            (str "guide")).
  vm_compute. reflexivity.
Defined.

Lemma GetDoc_production_mode_reads_only_witness :
  let r := (str "Setup en", Some (str "<p>setup"), true) in
  ProdMode st_served = true
  ∧ @GetDoc stub 2 st_served (Some 1%nat) (str "guide/setup")
    = Ok (r, st_served)
  ∧ st_served = st_served.
Proof.
  intros r. split; [reflexivity|]. split; [reflexivity|].
  apply (@GetDoc_production_mode_reads_only stub 2 st_served (Some 1%nat)
           (str "guide/setup") r st_served); reflexivity.
Defined.

Lemma GetDoc_single_segment_witness :
  heap st_served !! 0%nat = Some (toc_loaded "en")
  ∧ is_segment (str "guide") = true ∧ str "guide" ≠ []
  ∧ @GetDoc stub 3 st_served (Some 0%nat) (str "guide")
    = @GetDoc stub 1 st_served (Some 0%nat) (str "guide")
  ∧ (∀ r st', @GetDoc stub 3 st_served (Some 0%nat) (str "guide")
              = Ok (r, st') → r.2 = false)
  ∧ ((∀ n, n ∈ Toc_Nodes (toc_loaded "en") → Name n ≠ str "guide") →
     @GetDoc stub 3 st_served (Some 0%nat) (str "guide")
     = Ok (not_found, st_served)).
Proof.
  split; [reflexivity|]. split; [reflexivity|]. split; [done|].
  apply (@GetDoc_single_segment stub 2 st_served 0 (toc_loaded "en")
           (str "guide")); [reflexivity|reflexivity|done].
Defined.

Lemma no_child_named_nothing :
  ∀ d, d ∈ Toc_Nodes (toc_loaded "en") → Name d = str "guide" →
       ∀ c, c ∈ Nodes d → Name c ≠ str "nothing".
Proof.
  intros d Hd _ c Hc. apply list_elem_of_singleton in Hd as ->.
  apply list_elem_of_singleton in Hc as ->. done.
Qed.

Lemma GetDoc_unknown_file_witness :
  heap st_served !! 0%nat = Some (toc_loaded "en")
  ∧ forallb is_segment [str "guide"; str "nothing"] = true
  ∧ str "guide" ≠ []
  ∧ (∀ d, d ∈ Toc_Nodes (toc_loaded "en") → Name d = str "guide" →
          ∀ c, c ∈ Nodes d → Name c ≠ str "nothing")
  ∧ @GetDoc stub 1 st_served (Some 0%nat)
      (join_path [str "guide"; str "nothing"])
    = Ok (not_found, st_served).
Proof.
  split; [reflexivity|]. split; [reflexivity|]. split; [done|].
  split; [apply no_child_named_nothing|].
  apply (@GetDoc_unknown_file stub 0 st_served 0 (toc_loaded "en")
           (str "guide") (str "nothing") []);
    [reflexivity|reflexivity|done|apply no_child_named_nothing].
Defined.

Lemma GetDoc_existing_file_witness :
  let n := mkNode (str "setup") (str "Setup en") (Some (str "<p>setup"))
             (str "setup") false (str "docs/en/guide/setup.md") [] in
  IsFile (world st_served) (FileName n) = true
  ∧ @GetDoc stub 1 st_served (Some 0%nat)
      (join_path [str "guide"; str "setup"])
    = ('(c, n') ← @Content stub st_served n;
       Ok ((if @title_read_first stub then Title n else Title n', c, false),
           store_file st_served 0 0 0 n'))
  ∧ (ProdMode st_served = true →
     @GetDoc stub 1 st_served (Some 0%nat)
       (join_path [str "guide"; str "setup"])
     = Ok ((Title n, content n, false), st_served)).
Proof.
  intros n. split; [reflexivity|].
  eapply (@GetDoc_existing_file stub 0 st_served 0 (toc_loaded "en")
            (str "guide") (str "setup") 0 _ 0 n);
    first [reflexivity | done | apply NoDup_singleton].
Defined.

Lemma GetDoc_fallback_answer_witness :
  let n := mkNode (str "setup") (str "Setup zh") (Some (str "<p>setup"))
             (str "setup") false (str "docs/zh/guide/setup.md") [] in
  let n0 := mkNode (str "setup") (str "Setup en") (Some (str "<p>setup"))
              (str "setup") false (str "docs/en/guide/setup.md") [] in
  ProdMode st_served = true
  ∧ IsFile (world st_served) (FileName n) = false
  ∧ Langs st_served = [str "en"; str "zh"]
  ∧ Tocs st_served !! str "en" = Some 0%nat
  ∧ IsFile (world st_served) (FileName n0) = true
  ∧ @GetDoc stub 2 st_served (Some 1%nat)
      (join_path [str "guide"; str "setup"])
    = Ok ((Title n0, content n0, true), st_served).
Proof.
  intros n n0. do 5 (split; [reflexivity|]).
  eapply (@GetDoc_fallback_answer stub 0 st_served 1 (toc_loaded "zh")
            (str "guide") (str "setup") 0 _ 0 n (str "en") [str "zh"]
            0%nat (toc_loaded "en") 0 _ 0 n0);
    first [reflexivity | done | apply NoDup_singleton].
Defined.

Lemma GetDoc_fallback_without_default_tree_witness :
  let n := mkNode (str "setup") (str "Setup zh") (Some (str "<p>setup"))
             (str "setup") false (str "docs/zh/guide/setup.md") [] in
  IsFile (world st_no_default) (FileName n) = false
  ∧ (Langs st_no_default = []
     ∨ ∃ lang0 langs, Langs st_no_default = lang0 :: langs
                      ∧ lookup_Toc st_no_default lang0 = None)
  ∧ @GetDoc stub 2 st_no_default (Some 1%nat)
      (join_path [str "guide"; str "setup"]) = Panic.
Proof.
  intros n.
  assert (Langs st_no_default = []
          ∨ ∃ lang0 langs, Langs st_no_default = lang0 :: langs
                           ∧ lookup_Toc st_no_default lang0 = None) as Hdef.
  { right. exists (str "fr"), [str "zh"]. split; reflexivity. }
  split; [reflexivity|]. split; [exact Hdef|].
  eapply (@GetDoc_fallback_without_default_tree stub 0 st_no_default 1
            (toc_loaded "zh") (str "guide") (str "setup") 0 _ 0 n);
    first [reflexivity | done | apply NoDup_singleton | exact Hdef].
Defined.

(** ** Search *)

Lemma window_occurrence text q i :
  occurs_at text q i →
  (length (window text (Z.of_nat i) (len q)) ≤ length q + 250)%nat
  ∧ occurs_at (window text (Z.of_nat i) (len q)) q (Nat.min i 20).
Proof.
  intros (before & after & -> & <-). unfold window, len.
  rewrite !length_app.
  replace (Z.to_nat (Z.max 0 (Z.of_nat (length before) - 20)))
    with (length before - 20)%nat by lia.
  set (k := Z.to_nat _).
  assert ((length before - (length before - 20) + length q ≤ k
           ∧ k ≤ length q + 250)%nat) as [Hlo Hhi] by (subst k; lia).
  split; [rewrite length_take; lia|].
  rewrite drop_app_le by lia.
  rewrite take_app_ge by (rewrite length_drop; lia).
  rewrite take_app_ge by (rewrite length_drop; lia).
  eexists _, _. split; [done|]. rewrite length_drop. lia.
Qed.

Lemma result_of_snippet q title path text r :
  result_of q title path text = Some r →
  (length (res_Match r) ≤ length q + 250)%nat
  ∧ ∃ k, (k ≤ 20)%nat ∧ occurs_at (res_Match r) q k.
Proof.
  unfold result_of. destruct (index_nat text q) as [i|] eqn:Hi; [|done].
  intros [= <-]. simpl. apply index_nat_Some in Hi as [Hocc _].
  destruct (window_occurrence _ _ _ Hocc) as [Hlen Hin].
  split; [done|]. exists (Nat.min i 20). split; [lia|done].
Qed.

Lemma omap_length_le {A B} (f : A → option B) (l : list A) :
  (length (omap f l) ≤ length l)%nat.
Proof.
  induction l as [|x l IH]; [done|].
  change (omap f (x :: l))
    with (match f x with Some y => y :: omap f l | None => omap f l end).
  destruct (f x); simpl; lia.
Qed.

Lemma index_nat_nil q : q ≠ [] → index_nat [] q = None.
Proof. by destruct q. Qed.

Section MoreSearch.
Context `{Externals}.

(** Every snippet contains the lowercased query, at most 20 bytes from
    its start, and is at most 250 bytes longer than the query; there are
    never more results than nodes. *)
Theorem Search_snippets_contain_query t q :
  q ≠ [] → within_int t →
  ∃ rs, Search t q = Ok rs
    ∧ (length rs ≤ length (texts t))%nat
    ∧ Forall (λ r,
        (length (res_Match r) ≤ length (strings_ToLower q) + 250)%nat
        ∧ ∃ k, (k ≤ 20)%nat ∧ occurs_at (res_Match r) (strings_ToLower q) k)
        rs.
Proof.
  intros Hq Hb. apply Forall_app in Hb as [Hdirs Hfiles].
  eexists. split.
  { unfold Search.
    assert ((len q =? 0) = false) as ->.
    { apply Z.eqb_neq. unfold len. destruct q; [done|]. simpl. lia. }
    rewrite search_dirs_results by done. rewrite bind_Ok.
    by rewrite search_files_results. }
  simpl. split.
  - unfold texts. rewrite !length_app, length_fmap.
    apply Nat.add_le_mono; [apply omap_length_le|].
    clear. induction (Toc_Nodes t) as [|d nodes IH]; [done|].
    rewrite !bind_cons, !length_app, length_fmap.
    apply Nat.add_le_mono; [apply omap_length_le|done].
  - apply Forall_app. split.
    + apply Forall_forall. intros r Hr.
      apply list_elem_of_omap in Hr as (n & _ & Hr).
      by apply result_of_snippet in Hr.
    + apply Forall_bind, Forall_forall. intros d _. simpl.
      apply Forall_forall. intros r Hr.
      apply list_elem_of_omap in Hr as (c & _ & Hr).
      by apply result_of_snippet in Hr.
Qed.

(** [Search] reads the text that content resolution cached: on a tree
    whose nodes were never resolved no query finds anything. *)
Theorem Search_unresolved_tree t q :
  Forall (λ text, text = []) (texts t) →
  q ≠ [] → strings_ToLower q ≠ [] →
  Search t q = Ok [].
Proof.
  intros Hempty Hq Hq'.
  assert (within_int t) as Hb.
  { eapply Forall_impl; [exact Hempty|]. by intros text ->. }
  apply Forall_app in Hb as [Hdirs Hfiles].
  apply Forall_app in Hempty as [Hed Hef].
  unfold Search.
  assert ((len q =? 0) = false) as ->.
  { apply Z.eqb_neq. unfold len. destruct q; [done|]. simpl. lia. }
  rewrite search_dirs_results by done. rewrite bind_Ok.
  rewrite search_files_results by done. f_equal.
  rewrite app_nil_l. apply app_nil. split.
  - clear Hdirs Hfiles Hef. induction (Toc_Nodes t) as [|n nodes IH]; [done|].
    rewrite fmap_cons in Hed. apply Forall_cons in Hed as [Hn Hed].
    change (omap ?f (n :: nodes))
      with (match f n with Some y => y :: omap f nodes | None => omap f nodes end).
    unfold result_of at 1. rewrite Hn, index_nat_nil by done. simpl.
    by apply IH.
  - clear Hdirs Hfiles Hed. induction (Toc_Nodes t) as [|d nodes IH]; [done|].
    rewrite bind_cons in Hef. apply Forall_app in Hef as [Hd Hef].
    rewrite bind_cons, IH, app_nil_r by done.
    clear IH Hef. induction (Nodes d) as [|c children IH]; [done|].
    rewrite fmap_cons in Hd. apply Forall_cons in Hd as [Hc Hd].
    change (omap ?f (c :: children))
      with (match f c with
            | Some y => y :: omap f children
            | None => omap f children
            end).
    unfold result_of at 1. rewrite Hc, index_nat_nil by done. simpl.
    by apply IH.
Qed.

End MoreSearch.

Lemma Search_snippets_contain_query_witness :
  str "peach" ≠ [] ∧ within_int toc_texts
  ∧ ∃ rs, @Search stub toc_texts (str "peach") = Ok rs
      ∧ (length rs ≤ length (texts toc_texts))%nat
      ∧ Forall (λ r,
          (length (res_Match r)
           ≤ length (@strings_ToLower stub (str "peach")) + 250)%nat
          ∧ ∃ k, (k ≤ 20)%nat
                 ∧ occurs_at (res_Match r)
                     (@strings_ToLower stub (str "peach")) k) rs.
Proof.
  split; [done|]. split; [apply within_int_toc_texts|].
  apply (@Search_snippets_contain_query stub toc_texts (str "peach"));
    [done|apply within_int_toc_texts].
Defined.

Lemma texts_toc_guide : Forall (λ text, text = []) (texts (toc_guide "en")).
Proof. by repeat constructor. Qed.

Lemma Search_unresolved_tree_witness :
  Forall (λ text, text = []) (texts (toc_guide "en"))
  ∧ str "hello" ≠ [] ∧ @strings_ToLower stub (str "hello") ≠ []
  ∧ @Search stub (toc_guide "en") (str "hello") = Ok [].
Proof.
  split; [apply texts_toc_guide|]. split; [done|]. split; [done|].
  apply (@Search_unresolved_tree stub (toc_guide "en") (str "hello"));
    [apply texts_toc_guide|done|done].
Defined.

(** ** Loading and reloading *)

Lemma fold_insert_lookup {V} (f : gostring → V) (l : list gostring)
    (m : gmap gostring V) (lang : gostring) :
  fold_left (λ tocs k, <[k := f k]> tocs) l m !! lang
  = if bool_decide (lang ∈ l) then Some (f lang) else m !! lang.
Proof.
  revert m. induction l as [|k l IH]; intros m; [done|].
  cbn [fold_left]. rewrite IH.
  destruct (decide (lang ∈ l)) as [Hin|Hnin].
  - rewrite !bool_decide_eq_true_2; [done|by right|done].
  - rewrite (bool_decide_eq_false_2 (lang ∈ l)) by done.
    rewrite lookup_insert. destruct (decide (k = lang)) as [->|Hne].
    + rewrite bool_decide_eq_true_2; [done|by left].
    + rewrite bool_decide_eq_false_2; [done|].
      intros [?|?]%elem_of_cons; congruence.
Qed.

Lemma HasSuffix_app s suffix : HasSuffix (s ++ suffix) suffix = true.
Proof. unfold HasSuffix. rewrite rev_app_distr. apply HasPrefix_app. Qed.

Lemma install_lookup (st : State) (tocs : gmap gostring Toc) (lang : gostring) :
  lookup_Toc (install st tocs) lang = tocs !! lang.
Proof.
  unfold lookup_Toc, install. simpl.
  set (l := map_to_list tocs). set (n := length (heap st)).
  pose proof (NoDup_fst_map_to_list tocs) as Hnd. fold l in Hnd.
  assert ((zip (l.*1) (seq n (length l))).*1 = l.*1) as Hkeys.
  { apply fst_zip. by rewrite length_fmap, length_seq. }
  destruct (tocs !! lang) as [t|] eqn:Hlang.
  - apply elem_of_map_to_list in Hlang. fold l in Hlang.
    apply list_elem_of_lookup in Hlang as [k Hk].
    pose proof (lookup_lt_Some _ _ _ Hk) as Hlt.
    rewrite (elem_of_list_to_map_1 _ lang (n + k)%nat).
    + simpl. rewrite lookup_app_r by (subst n; lia).
      replace (n + k - length (heap st))%nat with k by (subst n; lia).
      by rewrite list_lookup_fmap, Hk.
    + by rewrite Hkeys.
    + apply list_elem_of_lookup. exists k. apply lookup_zip_Some. split.
      * by rewrite list_lookup_fmap, Hk.
      * by apply lookup_seq.
  - rewrite not_elem_of_list_to_map_1; [done|]. rewrite Hkeys.
    intros Hin. apply list_elem_of_fmap in Hin as ([lang' t] & -> & Hin).
    apply elem_of_map_to_list in Hin. simpl in Hlang. congruence.
Qed.

Lemma omap_filter_fmap {A B C} (f : A → option B) (g : B → C) (h : A → C)
    (P : C → Prop) `{∀ c, Decision (P c)} (l : list A) :
  (∀ a, match f a with
        | Some b => g b = h a ∧ P (h a)
        | None => ¬ P (h a)
        end) →
  g <$> omap f l = filter P (h <$> l).
Proof.
  intros Hf. induction l as [|a l IH]; [done|].
  change (omap f (a :: l))
    with (match f a with Some y => y :: omap f l | None => omap f l end).
  rewrite fmap_cons, filter_cons. specialize (Hf a).
  destruct (f a) as [b|].
  - destruct Hf as [Hg HP]. rewrite decide_True by done.
    by rewrite fmap_cons, Hg, IH.
  - by rewrite decide_False.
Qed.

Lemma fmap_map_Name {A} (name file : A → gostring) (l : list A) :
  Name <$> map (λ x, new_Node (name x) (file x) []) l = name <$> l.
Proof.
  induction l as [|x l IH]; [done|].
  cbn [map]. rewrite !fmap_cons. cbn [Name new_Node]. by rewrite IH.
Qed.

Section MoreLoading.
Context `{Externals}.

(** With a readable, parsable TOC.ini the loader builds exactly one tree
    per configured language, each carrying its language and the root. *)
Theorem initToc_one_tree_per_language st localRoot tocCfg :
  IsFile (world st) (path_Join [localRoot; str "TOC.ini"]) = true →
  ini_Load (world st) (path_Join [localRoot; str "TOC.ini"]) = Some tocCfg →
  ∃ tocs, initToc st localRoot = inr tocs
    ∧ (∀ lang, tocs !! lang
               = if bool_decide (lang ∈ Langs st)
                 then Some (build_Toc tocCfg localRoot lang) else None)
    ∧ (∀ lang t, tocs !! lang = Some t →
                 Lang t = lang ∧ RootPath t = localRoot).
Proof.
  intros Hfile Hload. unfold initToc. rewrite Hfile, Hload. simpl.
  eexists. split; [done|].
  assert (∀ lang,
    fold_left (λ tocs lang, <[lang := build_Toc tocCfg localRoot lang]> tocs)
      (Langs st) (∅ : gmap gostring Toc) !! lang
    = if bool_decide (lang ∈ Langs st)
      then Some (build_Toc tocCfg localRoot lang) else None) as Hlook.
  { intros lang.
    rewrite (fold_insert_lookup (build_Toc tocCfg localRoot)).
    by rewrite lookup_empty. }
  split; [done|]. intros lang t. rewrite Hlook.
  case_bool_decide; [|done]. by intros [= <-].
Qed.

(** The directory nodes are the declared directories that list at least
    one file, in the order of the index; the first file of a directory
    is the directory's own document and the other files are its children,
    also in order. *)
Theorem build_Toc_directories cfg localRoot lang :
  Name <$> Toc_Nodes (build_Toc cfg localRoot lang)
  = filter (λ dirName, ini_Section cfg dirName ≠ [])
      (Key_String (ini_Section cfg []) <$> KeyStrings (ini_Section cfg []))
  ∧ Forall (λ d,
      Name <$> Nodes d
      = tail (Key_String (ini_Section cfg (Name d))
              <$> KeyStrings (ini_Section cfg (Name d))))
      (Toc_Nodes (build_Toc cfg localRoot lang)).
Proof.
  unfold build_Toc. cbn [Toc_Nodes]. split.
  - apply omap_filter_fmap. intros dir.
    destruct (KeyStrings _) as [|file0 files] eqn:Hkeys.
    + apply fmap_nil_inv in Hkeys. intros Hne. by apply Hne.
    + split; [done|]. intros Hsec. by rewrite Hsec in Hkeys.
  - apply Forall_forall. intros d Hd.
    apply list_elem_of_omap in Hd as (dir & _ & Hd).
    destruct (KeyStrings _) as [|file0 files] eqn:Hkeys; [done|].
    injection Hd as <-. cbn [Name Nodes new_Node]. rewrite Hkeys.
    rewrite fmap_cons. cbn [tail]. apply fmap_map_Name.
Qed.

(** What the loader builds is a two-level tree of unresolved nodes: no
    child has children, no page has children, nothing has a title or a
    rendering yet, and every backing file ends in [.md]. *)
Theorem build_Toc_shape cfg localRoot lang :
  Forall (λ d,
    unresolved d ∧ HasSuffix (FileName d) (str ".md") = true
    ∧ Forall (λ c, unresolved c ∧ Nodes c = []
                   ∧ HasSuffix (FileName c) (str ".md") = true) (Nodes d))
    (Toc_Nodes (build_Toc cfg localRoot lang))
  ∧ Forall (λ p, unresolved p ∧ Nodes p = []
                 ∧ HasSuffix (FileName p) (str ".md") = true)
      (Pages (build_Toc cfg localRoot lang)).
Proof.
  unfold build_Toc. simpl. split.
  - apply Forall_forall. intros d Hd.
    apply list_elem_of_omap in Hd as (dir & _ & Hd).
    destruct (KeyStrings _) as [|file0 files]; [done|]. injection Hd as <-.
    split; [done|]. split; [apply HasSuffix_app|]. simpl.
    apply Forall_forall. intros c Hc.
    apply list_elem_of_In, in_map_iff in Hc as (file & <- & _).
    split; [done|]. split; [done|]. apply HasSuffix_app.
  - apply Forall_forall. intros pg Hp.
    apply list_elem_of_In, in_map_iff in Hp as (page & <- & _).
    split; [done|]. split; [done|]. apply HasSuffix_app.
Qed.

(** Whatever error [ReloadDocs] returns, the registry, the trees and the
    settings are as before; only the disk may have been touched by git. *)
Theorem ReloadDocs_error_keeps_registry st e st' :
  ReloadDocs st = Ok (Some e, st') →
  st' = set_world st (world st')
  ∧ e ∈ [ErrAbs; ErrPull; ErrClone; ErrDocsNotFound;
         ErrInitToc ErrTocNotFound; ErrInitToc ErrLoadToc].
Proof.
  unfold ReloadDocs.
  destruct (ensure_source st) as [st1 r] eqn:Hsrc.
  pose proof (ensure_source_keeps_registry _ _ _ Hsrc) as Hst1.
  destruct r as [e1|localRoot].
  - intros [= <- <-]. split; [done|].
    revert Hsrc. unfold ensure_source.
    repeat (case_match; simplify_eq; try done); intros; simplify_eq;
      set_solver.
  - destruct (initToc st1 localRoot) as [e1|tocs] eqn:Hload.
    + intros [= <- <-]. split; [done|].
      revert Hload. unfold initToc.
      repeat (case_match; simplify_eq; try done); intros; simplify_eq;
        set_solver.
    + by destruct (initDocs st1 tocs localRoot).
Qed.

(** A successful reload points the registry at the trees [initDocs] hands
    back, one lookup per language, and leaves every older tree at its
    address. *)
Theorem ReloadDocs_success_installs st st1 localRoot tocs tocs' :
  ensure_source st = (st1, inr localRoot) →
  initToc st1 localRoot = inr tocs →
  initDocs st1 tocs localRoot = Ok tocs' →
  ∃ st', ReloadDocs st = Ok (None, st')
    ∧ (∀ lang, lookup_Toc st' lang = tocs' !! lang)
    ∧ (∀ a t, heap st !! a = Some t → heap st' !! a = Some t)
    ∧ world st' = world st1.
Proof.
  intros Hsrc Hload Hdocs. exists (install st1 tocs').
  split; [by unfold ReloadDocs; rewrite Hsrc, Hload, Hdocs|].
  split; [intros lang; apply install_lookup|]. split; [|done].
  intros a t Ha. simpl. apply lookup_app_l_Some.
  by rewrite (ensure_source_keeps_registry _ _ _ Hsrc).
Qed.

End MoreLoading.

Lemma initToc_one_tree_per_language_witness :
  IsFile (world st_fresh) (@path_Join stub_ini [str "docs"; str "TOC.ini"])
    = true
  ∧ @ini_Load stub_ini (world st_fresh)
      (@path_Join stub_ini [str "docs"; str "TOC.ini"]) = Some ini_guide
  ∧ ∃ tocs, @initToc stub_ini st_fresh (str "docs") = inr tocs
      ∧ (∀ lang, tocs !! lang
                 = if bool_decide (lang ∈ Langs st_fresh)
                   then Some (@build_Toc stub_ini ini_guide (str "docs") lang)
                   else None)
      ∧ (∀ lang t, tocs !! lang = Some t →
                   Lang t = lang ∧ RootPath t = str "docs").
Proof.
  split; [reflexivity|]. split; [reflexivity|].
  apply (@initToc_one_tree_per_language stub_ini st_fresh (str "docs")
           ini_guide); reflexivity.
Defined.

Lemma ReloadDocs_error_keeps_registry_witness :
  @ReloadDocs stub_no_abs st_remote = Ok (Some ErrAbs, st_remote)
  ∧ st_remote = set_world st_remote (world st_remote)
  ∧ ErrAbs ∈ [ErrAbs; ErrPull; ErrClone; ErrDocsNotFound;
              ErrInitToc ErrTocNotFound; ErrInitToc ErrLoadToc].
Proof.
  split; [reflexivity|].
  apply (@ReloadDocs_error_keeps_registry stub_no_abs st_remote ErrAbs
           st_remote). reflexivity.
Defined.

Lemma ReloadDocs_success_installs_witness :
  let tocs : gmap gostring Toc :=
    <[str "en" := @build_Toc stub_ini ini_guide (str "docs") (str "en")]> ∅ in
  @ensure_source stub_ini st_fresh = (st_fresh, inr (str "docs"))
  ∧ @initToc stub_ini st_fresh (str "docs") = inr tocs
  ∧ @initDocs stub_ini st_fresh tocs (str "docs") = Ok tocs
  ∧ ∃ st', @ReloadDocs stub_ini st_fresh = Ok (None, st')
      ∧ (∀ lang, lookup_Toc st' lang = tocs !! lang)
      ∧ (∀ a t, heap st_fresh !! a = Some t → heap st' !! a = Some t)
      ∧ world st' = world st_fresh.
Proof.
  intros tocs. split; [reflexivity|]. split; [reflexivity|].
  split; [reflexivity|].
  apply (@ReloadDocs_success_installs stub_ini st_fresh st_fresh (str "docs")
           tocs tocs); reflexivity.
Defined.
